(** * MagicScanner: the mobile client's API service and result screen,
      and the card recognition pipeline it talks to.

    The first part of this development embeds the JavaScript sources
    ([services/api.js], [screens/CameraScreen.js],
    [screens/ScanResultsScreen.js]).  JSON payloads are kept as untyped
    JavaScript values, exceptions are threaded through a small outcome
    monad, and [fetch] is the environment: a function from the request
    that is sent to what comes back.

    The second part models the recognition pipeline behind the [/scan]
    endpoint. *)

From Stdlib Require Import ZArith String Ascii List Lia DecimalString.
From stdpp Require Import base decidable option list strings vector sorting.

Set Warnings "-register-all".

Open Scope string_scope.
Open Scope list_scope.
Open Scope Z_scope.

(** ** JavaScript values *)

Module JS.

(** Values that a parsed JSON body, or a property read on one, can hold.
    Numbers are the integers: the payload's counts, card numbers and
    confidences are integers, and nothing below depends on a fraction. *)
Inductive JSValue : Type :=
| JUndefined
| JNull
| JBool (b : bool)
| JNum (n : Z)
| JStr (s : string)
| JArr (items : list JSValue)
| JObj (props : list (string * JSValue)).

(** A thrown [Error] object, as far as the code looks at it: its
    [message]. *)
Record JSError : Type := Error { message : string }.

(** The result of evaluating an expression or awaiting a promise: a value,
    or a thrown error (a rejected promise). *)
Inductive Outcome (A : Type) : Type :=
| Returns (a : A)
| Throws (e : JSError).
Arguments Returns {A} a.
Arguments Throws {A} e.

(** Sequencing: [await] a step, then go on, unless it threw. *)
Definition bind {A B} (m : Outcome A) (k : A -> Outcome B) : Outcome B :=
  match m with
  | Returns a => k a
  | Throws e => Throws e
  end.

(** [try { body } catch (error) { handler }] *)
Definition try_catch {A} (body : Outcome A) (handler : JSError -> Outcome A)
  : Outcome A :=
  match body with
  | Returns a => Returns a
  | Throws e => handler e
  end.

(** The outcome is a thrown error. *)
Definition raises {A} (m : Outcome A) : Prop := exists e, m = Throws e.

(** JavaScript's ToBoolean. *)
Definition truthy (v : JSValue) : bool :=
  match v with
  | JUndefined | JNull => false
  | JBool b => b
  | JNum n => negb (n =? 0)
  | JStr s => negb (String.eqb s EmptyString)
  | JArr _ | JObj _ => true
  end.

(** A number in decimal. *)
Definition Z_to_string (n : Z) : string := NilZero.string_of_int (Z.to_int n).

(** [l.join(sep)] on strings. *)
Fixpoint join (sep : string) (l : list string) : string :=
  match l with
  | [] => EmptyString
  | [s] => s
  | s :: rest => s +:+ sep +:+ join sep rest
  end.

(** JavaScript's ToString, as template literals and [new Error(x)] apply
    it.  An array joins its elements with commas, printing [null] and
    [undefined] elements as nothing. *)
Fixpoint to_string (v : JSValue) : string :=
  match v with
  | JUndefined => "undefined"
  | JNull => "null"
  | JBool true => "true"
  | JBool false => "false"
  | JNum n => Z_to_string n
  | JStr s => s
  | JArr items =>
      join "," (map (fun x => match x with
                              | JUndefined | JNull => EmptyString
                              | _ => to_string x
                              end) items)
  | JObj _ => "[object Object]"
  end.

(** An object's own property [k], or [undefined]. *)
Fixpoint lookup_prop (k : string) (props : list (string * JSValue)) : JSValue :=
  match props with
  | [] => JUndefined
  | (k', v) :: rest => if String.eqb k k' then v else lookup_prop k rest
  end.

(** [v.k] for a property name [k] that no prototype defines (none of the
    names the client reads is one): reading from [undefined] or [null]
    throws a TypeError, an object answers from its own properties, any
    other value answers [undefined]. *)
Definition get (v : JSValue) (k : string) : Outcome JSValue :=
  match v with
  | JUndefined =>
      Throws (Error ("Cannot read property '" +:+ k +:+ "' of undefined"))
  | JNull =>
      Throws (Error ("Cannot read property '" +:+ k +:+ "' of null"))
  | JObj props => Returns (lookup_prop k props)
  | _ => Returns JUndefined
  end.

(** Upper case of one ASCII letter. *)
Definition upper_char (c : ascii) : ascii :=
  let n := nat_of_ascii c in
  if ((97 <=? n) && (n <=? 122))%nat then ascii_of_nat (n - 32) else c.

(** Upper case of a string, letter by letter. *)
Fixpoint upper (s : string) : string :=
  match s with
  | EmptyString => EmptyString
  | String c t => String (upper_char c) (upper t)
  end.

(** [v.toUpperCase()]: only a string has the method (letters outside
    a-z are left as they are). *)
Definition toUpperCase (v : JSValue) : Outcome JSValue :=
  match v with
  | JStr s => Returns (JStr (upper s))
  | JUndefined =>
      Throws (Error "Cannot read property 'toUpperCase' of undefined")
  | JNull => Throws (Error "Cannot read property 'toUpperCase' of null")
  | _ => Throws (Error "toUpperCase is not a function")
  end.

(** [hay.includes(needle)] on strings. *)
Fixpoint includes (hay needle : string) : bool :=
  String.prefix needle hay
  || match hay with
     | EmptyString => false
     | String _ t => includes t needle
     end.

(** Whether the character [c] occurs in [s]. *)
Fixpoint occurs (c : ascii) (s : string) : bool :=
  match s with
  | EmptyString => false
  | String x t => Ascii.eqb x c || occurs c t
  end.

(** [s.split(sep)] for a one-character separator. *)
Fixpoint split (sep : ascii) (s : string) : list string :=
  match s with
  | EmptyString => [EmptyString]
  | String c t =>
      if Ascii.eqb c sep then EmptyString :: split sep t
      else match split sep t with
           | h :: rest => String c h :: rest
           | [] => [String c EmptyString]
           end
  end.

(** The class [\w]. *)
Definition is_word (c : ascii) : bool :=
  let n := nat_of_ascii c in
  (((48 <=? n) && (n <=? 57)) || ((65 <=? n) && (n <=? 90))
   || ((97 <=? n) && (n <=? 122)) || (n =? 95))%nat.

(** Every character is in [\w]. *)
Fixpoint all_word (s : string) : bool :=
  match s with
  | EmptyString => true
  | String c t => is_word c && all_word t
  end.

(** [/\.(\w+)$/.exec(s)]: the leftmost dot that is followed, up to the end
    of the string, by one or more word characters; the answer is the
    captured group. *)
Fixpoint exec_extension (s : string) : option string :=
  match s with
  | EmptyString => None
  | String c t =>
      if Ascii.eqb c "." && negb (String.eqb t EmptyString) && all_word t
      then Some t
      else exec_extension t
  end.

#[global] Instance outcome_bind : MBind Outcome := fun A B k m => bind m k.
#[global] Instance outcome_ret : MRet Outcome := fun A a => Returns a.

End JS.

(** ** services/api.js *)

Module Api.
Import JS.

(** The shape of [API_CONFIG]. *)
Record API_CONFIG_t : Type := {
  LOCAL_URL : string;
  PRODUCTION_URL : string;
  USE_LOCAL : bool
}.

Definition API_CONFIG : API_CONFIG_t := {|
  LOCAL_URL := "http://192.168.1.5:8000";
  PRODUCTION_URL := "https://magic-scanner-backend-production.up.railway.app";
  USE_LOCAL := false
|}.

(** [getApiUrl()] *)
Definition getApiUrl : string :=
  if USE_LOCAL API_CONFIG then LOCAL_URL API_CONFIG
  else PRODUCTION_URL API_CONFIG.

(** The file part appended to the form data. *)
Record FilePart : Type := {
  part_uri : string;
  part_name : string;
  part_type : string
}.

(** What is handed to [fetch]: the URL and the init object. *)
Record Request : Type := {
  url : string;
  method : string;
  headers : list (string * string);
  body : list (string * FilePart);
  timeout : option Z
}.

(** A [Response], as far as the client uses it: [ok], [status], and what
    awaiting [text()] and [json()] gives. *)
Record Response : Type := {
  ok : bool;
  status : Z;
  text : Outcome string;
  json : Outcome JSValue
}.

(** The environment: what awaiting [fetch(url, init)] gives, a response or
    a rejection (network failure, timeout). *)
Definition Fetch : Type := Request -> Outcome Response.

(** The form data: the file name is the last segment of the URI, and the
    type follows its extension. *)
Definition scan_form (imageUri : string) : list (string * FilePart) :=
  let filename := last (split "/" imageUri) in
  let match_ := exec_extension (default "undefined" filename) in
  let type := match match_ with
              | Some ext => "image/" +:+ ext
              | None => "image/jpeg"
              end in
  [("file", {| part_uri := imageUri;
               part_name := match filename with
                            | Some f => if String.eqb f EmptyString
                                        then "photo.jpg" else f
                            | None => "photo.jpg"
                            end;
               part_type := type |})].

(** The default parameter value: [scanMode = 'default'] applies when the
    argument is left out. *)
Definition scan_mode_arg (scanMode : option string) : string :=
  default "default" scanMode.

(** The request [scanCards] sends. *)
Definition scan_request (imageUri : string) (scanMode : option string)
  : Request := {|
  url := getApiUrl +:+ "/scan?scan_mode=" +:+ scan_mode_arg scanMode;
  method := "POST";
  headers := [("Accept", "application/json");
              ("Content-Type", "multipart/form-data")];
  body := scan_form imageUri;
  timeout := Some 30000
|}.

(** The body of the [try] block of [scanCards]. *)
Definition scanCards_try (fetch : Fetch) (imageUri : string)
    (scanMode : option string) : Outcome JSValue :=
  response ← fetch (scan_request imageUri scanMode);
  if negb (ok response) then
    errorText ← text response;
    Throws (Error ("API request failed: " +:+ Z_to_string (status response)))
  else
    data ← json response;
    success ← get data "success";
    if negb (truthy success) then
      msg ← get data "message";
      Throws (Error (to_string (if truthy msg then msg
                                else JStr "Scan failed")))
    else Returns data.

(** The [catch] block of [scanCards]: two messages are replaced by more
    helpful ones, every other error is thrown again. *)
Definition scanCards_catch (error : JSError) : Outcome JSValue :=
  if includes (message error) "Network request failed" then
    Throws (Error
      "Network error - cannot connect to backend. Check your API URL.")
  else if includes (message error) "timeout" then
    Throws (Error
      "Request timeout - backend is taking too long to respond.")
  else Throws error.

(** [scanCards(imageUri, scanMode)]; [None] is the argument left out. *)
Definition scanCards (fetch : Fetch) (imageUri : string)
    (scanMode : option string) : Outcome JSValue :=
  try_catch (scanCards_try fetch imageUri scanMode) scanCards_catch.




(** The request [testConnection] sends. *)
Definition connection_request : Request := {|
  url := getApiUrl;
  method := "GET";
  headers := [("Accept", "application/json")];
  body := [];
  timeout := Some 5000
|}.

(** [testConnection()] *)
Definition testConnection (fetch : Fetch) : Outcome bool :=
  try_catch
    (response ← fetch connection_request;
     Returns (ok response))
    (fun error => Returns false).

(** The request [identifySingleCard] sends: the same form data, no
    timeout. *)
Definition identify_request (imageUri : string) : Request := {|
  url := getApiUrl +:+ "/identify-single";
  method := "POST";
  headers := [("Accept", "application/json");
              ("Content-Type", "multipart/form-data")];
  body := scan_form imageUri;
  timeout := None
|}.

(** [identifySingleCard(imageUri)]: the body is returned as it is parsed;
    the [catch] block logs and throws the error again. *)
Definition identifySingleCard (fetch : Fetch) (imageUri : string)
  : Outcome JSValue :=
  try_catch
    (response ← fetch (identify_request imageUri);
     if negb (ok response) then
       Throws (Error ("API request failed: "
                      +:+ Z_to_string (status response)))
     else
       data ← json response;
       Returns data)
    (fun error => Throws error).

(** The request [checkHealth] sends. *)
Definition health_request : Request := {|
  url := getApiUrl +:+ "/health";
  method := "GET";
  headers := [("Accept", "application/json")];
  body := [];
  timeout := Some 5000
|}.

(** [checkHealth()] *)
Definition checkHealth (fetch : Fetch) : Outcome JSValue :=
  try_catch
    (response ← fetch health_request;
     if negb (ok response) then
       Throws (Error ("Health check failed: "
                      +:+ Z_to_string (status response)))
     else
       data ← json response;
       Returns data)
    (fun error => Throws error).

(** The request [getDatabaseStats] sends. *)
Definition stats_request : Request := {|
  url := getApiUrl +:+ "/database/stats";
  method := "GET";
  headers := [("Accept", "application/json")];
  body := [];
  timeout := None
|}.

(** [getDatabaseStats()] *)
Definition getDatabaseStats (fetch : Fetch) : Outcome JSValue :=
  try_catch
    (response ← fetch stats_request;
     if negb (ok response) then
       Throws (Error ("Stats request failed: "
                      +:+ Z_to_string (status response)))
     else
       data ← json response;
       Returns data)
    (fun error => Throws error).

End Api.

(** ** screens/CameraScreen.js: the scan-mode state *)

Module CameraScreen.
Import JS Api.

(** The two pieces of component state the scan depends on. *)
Record State : Type := {
  scanMode : string;
  isProcessing : bool
}.

(** [useState('default')], [useState(false)]. *)
Definition initial : State :=
  {| scanMode := "default"; isProcessing := false |}.

(** What the user, or the end of a scan, can do to the state.  The two
    mode buttons are disabled while a scan is processed. *)
Inductive Event : Type :=
| PressDefaultScan
| PressProScan
| StartProcessing
| FinishProcessing.

(** [setScanMode] and [setIsProcessing], as the handlers call them. *)
Definition step (s : State) (e : Event) : State :=
  match e with
  | PressDefaultScan =>
      if isProcessing s then s
      else {| scanMode := "default"; isProcessing := isProcessing s |}
  | PressProScan =>
      if isProcessing s then s
      else {| scanMode := "pro"; isProcessing := isProcessing s |}
  | StartProcessing => {| scanMode := scanMode s; isProcessing := true |}
  | FinishProcessing => {| scanMode := scanMode s; isProcessing := false |}
  end.


(** What [processImage] ends with: the results screen, or an alert. *)
Inductive Effect : Type :=
| Navigate (screen : string) (results : JSValue)
| Alert (title text : string).

(** The [catch] block of [processImage]: the text of the alert. *)
Definition errorMessage (error : JSError) : string :=
  if includes (message error) "network" then
    "Network error. Please check your connection and backend URL."
  else if includes (message error) "No cards detected" then
    "No cards detected in image. Please ensure cards are clearly visible."
  else "Failed to scan cards. Please try again.".

(** [processImage] once the scan has settled: navigate with the results,
    or alert; in both cases [finally] clears [isProcessing]. *)
Definition processImage_settle (scanned : Outcome JSValue) (s : State)
  : Effect * State :=
  (match scanned with
   | Returns results => Navigate "ScanResults" results
   | Throws error => Alert "Scan Failed" (errorMessage error)
   end,
   {| scanMode := scanMode s; isProcessing := false |}).

(** [processImage]: the scan is called with the screen's current mode. *)
Definition processImage (fetch : Fetch) (s : State) (imageUri : string)
  : Effect * State :=
  processImage_settle (scanCards fetch imageUri (Some (scanMode s))) s.

(** [takePicture]: nothing happens without a camera; otherwise the
    screen starts processing, and either the photo is taken and handed to
    [processImage], or taking it fails, which is alerted and ends the
    processing.  [camera] is [cameraRef.current]: none, or what awaiting
    [takePictureAsync] gives, the URI of the photo or a rejection. *)
Definition takePicture (fetch : Fetch) (camera : option (Outcome string))
    (s : State) : list Effect * State :=
  match camera with
  | None => ([], s)
  | Some shot =>
      let processing := {| scanMode := scanMode s; isProcessing := true |} in
      match shot with
      | Returns uri =>
          let done := processImage fetch processing uri in
          ([fst done], snd done)
      | Throws error =>
          ([Alert "Error" "Failed to take picture. Please try again."],
           {| scanMode := scanMode processing; isProcessing := false |})
      end
  end.

(** What [launchImageLibraryAsync] resolves to, as far as [pickImage]
    reads it: [canceled] and the URIs of [assets]. *)
Record PickerResult : Type := {
  canceled : bool;
  assets : list string
}.

(** [pickImage]: a canceled pick does nothing; otherwise the screen starts
    processing and the first asset is handed to [processImage].  The
    [catch] block alerts and leaves [isProcessing] as it is: reading the
    URI of a first asset that is not there throws after the processing
    has started. *)
Definition pickImage (fetch : Fetch) (picker : Outcome PickerResult)
    (s : State) : list Effect * State :=
  match picker with
  | Throws error =>
      ([Alert "Error" "Failed to pick image. Please try again."], s)
  | Returns result =>
      if negb (canceled result) then
        let processing :=
          {| scanMode := scanMode s; isProcessing := true |} in
        match assets result with
        | uri :: _ =>
            let done := processImage fetch processing uri in
            ([fst done], snd done)
        | [] =>
            ([Alert "Error" "Failed to pick image. Please try again."],
             processing)
        end
      else ([], s)
  end.

(** The four buttons of the camera view. *)
Inductive Button : Type :=
| DefaultScanButton
| ProScanButton
| GalleryButton
| CaptureButton.

(** A press on a button, and what the environment would answer to the
    handler it starts: what [cameraRef.current] is and gives, and what
    the picker resolves to. *)
Record Tap : Type := {
  tap_button : Button;
  tap_camera : option (Outcome string);
  tap_picker : Outcome PickerResult
}.

(** A press: each of the four buttons is [disabled] while [isProcessing],
    and otherwise its [onPress] runs. *)
Definition tap (fetch : Fetch) (s : State) (t : Tap) : list Effect * State :=
  if isProcessing s then ([], s)
  else match tap_button t with
       | DefaultScanButton => ([], step s PressDefaultScan)
       | ProScanButton => ([], step s PressProScan)
       | GalleryButton => pickImage fetch (tap_picker t) s
       | CaptureButton => takePicture fetch (tap_camera t) s
       end.

(** A sequence of presses: the effects shown, in order, and the state the
    screen is left in. *)
Definition taps (fetch : Fetch) (s : State) (ts : list Tap)
  : list Effect * State :=
  fold_left (fun acc t => let done := tap fetch (snd acc) t in
                          (fst acc ++ fst done, snd done))
    ts ([], s).

End CameraScreen.

(** ** screens/ScanResultsScreen.js *)

Module ScanResultsScreen.
Import JS.

(** Equality of values is decidable. *)
Definition JSValue_eq_dec : forall a b : JSValue, {a = b} + {a <> b}.
Proof.
  fix IH 1. intros a b.
  decide equality.
  - apply bool_dec.
  - apply Z.eq_dec.
  - apply string_dec.
  - apply (List.list_eq_dec IH).
  - apply List.list_eq_dec. intros [k1 v1] [k2 v2].
    destruct (string_dec k1 k2) as [->|Hk]; [|right; congruence].
    destruct (IH v1 v2) as [->|Hv]; [left; reflexivity|right; congruence].
Defined.

(** [===] and the comparison of [Array.prototype.includes] agree on the
    values a card number can be (undefined, null, booleans, numbers and
    strings) and compare them by value. *)
#[global] Instance JSValue_eq : EqDecision JSValue := JSValue_eq_dec.

(** The updater handed to [setSelectedCards]: from the previous selection
    to the next one. *)
Definition toggleCardSelection {A} `{EqDecision A} (cardNumber : A)
    (prev : list A) : list A :=
  if bool_decide (cardNumber ∈ prev)
  then filter (fun n => n ≠ cardNumber) prev
  else prev ++ [cardNumber].

(** An entry of a [style] prop. *)
Inductive Style : Type :=
| Sheet (name : string)
| Inline (prop value : string)
| Skip (v : JSValue).

(** What an [onPress] handler does when it is called. *)
Inductive Action : Type :=
| ToggleCardSelection (cardNumber : JSValue)
| OpenScryfall (card : JSValue).

(** The rendered tree.  [Value v] is an expression child: a number or a
    string is shown as text, and [false], [null] and [undefined], what
    [cond && element] leaves for a failed condition, show nothing. *)
Inductive Node : Type :=
| Value (v : JSValue)
| Str (s : string)
| View (style : list Style) (children : list Node)
| Text (style : list Style) (children : list Node)
| Image (uri : JSValue) (style : list Style) (resizeMode : string)
| MaterialIcons (name : string) (size : Z) (color : string)
| TouchableOpacity (style : list Style) (onPress : Action)
    (children : list Node).

(** [cond && element] *)
Definition guarded (cond : JSValue) (element : Outcome Node) : Outcome Node :=
  if truthy cond then element else Returns (Value cond).

(** [l.includes(v)] *)
Definition array_includes (l : list JSValue) (v : JSValue) : bool :=
  bool_decide (v ∈ l).

(** One price: [card.prices.usd && (...)], and so on. *)
Definition price_row (label : list Node) (price : JSValue) : Outcome Node :=
  guarded price (Returns (Text [Sheet "priceText"] label)).

(** The rarity badge: [card.rarity && (...)]. *)
Definition rarity_badge (rarity : JSValue) : Outcome Node :=
  guarded rarity
    (rarity_upper ← toUpperCase rarity;
     Returns (View [Sheet "rarityBadge"; Sheet ("rarity" +:+ to_string rarity)]
                [Text [Sheet "rarityText"] [Value rarity_upper]])).

(** The price section: [card.prices && (...)]. *)
Definition price_section (prices : JSValue) : Outcome Node :=
  guarded prices
    (usd ← get prices "usd";
     usd_row ← price_row [Str "💵 $"; Value usd] usd;
     eur ← get prices "eur";
     eur_row ← price_row [Str "💶 €"; Value eur] eur;
     tix ← get prices "tix";
     tix_row ← price_row [Str "🎫 "; Value tix; Str " tix"] tix;
     Returns (View [Sheet "priceSection"]
                [Text [Sheet "priceLabel"] [Str "Prices:"];
                 View [Sheet "priceGrid"] [usd_row; eur_row; tix_row]])).

(** [renderCard]: the key of the element and the element. *)
Definition renderCard (selectedCards : list JSValue) (card : JSValue)
  : Outcome (JSValue * Node) :=
  card_number ← get card "card_number";
  let isSelected := array_includes selectedCards card_number in
  matched ← get card "matched";
  if negb (truthy matched) then
    Returns (card_number,
      View [Sheet "cardContainer"]
        [View [Sheet "unmatched"]
           [MaterialIcons "error-outline" 48 "#666";
            Text [Sheet "unmatchedText"]
              [Str "Card #"; Value card_number;
               Str " could not be identified"]]])
  else
    image_url ← get card "image_url";
    image ← guarded image_url
      (Returns (Image image_url [Sheet "cardImage"] "contain"));
    name ← get card "name";
    set ← get card "set";
    set_code ← get card "set_code";
    set_code_upper ← toUpperCase set_code;
    collector_number ← get card "collector_number";
    collector ← guarded collector_number
      (Returns (Text [Sheet "cardNumber"] [Str "#"; Value collector_number]));
    rarity ← get card "rarity";
    badge ← rarity_badge rarity;
    prices ← get card "prices";
    price_rows ← price_section prices;
    confidence ← get card "confidence";
    Returns (card_number,
      TouchableOpacity
        [Sheet "cardContainer";
         if isSelected then Sheet "cardSelected" else Skip (JBool false)]
        (ToggleCardSelection card_number)
        [View [Sheet "selectionIndicator"]
           [if isSelected then MaterialIcons "check-circle" 24 "#4ecdc4"
            else Value (JBool false)];
         image;
         View [Sheet "cardDetails"]
           [Text [Sheet "cardName"] [Value name];
            View [Sheet "cardMeta"]
              [Text [Sheet "cardSet"]
                 [Value set; Str " ("; Value set_code_upper; Str ")"];
               collector];
            badge;
            price_rows;
            View [Sheet "confidenceBar"]
              [Text [Sheet "confidenceLabel"]
                 [Str "Match Confidence: "; Value confidence; Str "%"];
               View [Sheet "confidenceBarBackground"]
                 [View [Sheet "confidenceBarFill";
                        Inline "width" (to_string confidence +:+ "%")] []]];
            TouchableOpacity [Sheet "scryfallButton"] (OpenScryfall card)
              [MaterialIcons "open-in-new" 16 "#4ecdc4";
               Text [Sheet "scryfallButtonText"] [Str "View on Scryfall"]]]]).

(** [map(renderCard)] over the elements of an array, in order. *)
Fixpoint render_all (selectedCards : list JSValue) (cards : list JSValue)
  : Outcome (list (JSValue * Node)) :=
  match cards with
  | [] => Returns []
  | card :: rest =>
      first ← renderCard selectedCards card;
      others ← render_all selectedCards rest;
      Returns (first :: others)
  end.

(** [results.cards.map(renderCard)] *)
Definition render_cards (selectedCards : list JSValue) (results : JSValue)
  : Outcome (list (JSValue * Node)) :=
  cards ← get results "cards";
  match cards with
  | JArr items => render_all selectedCards items
  | JUndefined => Throws (Error "Cannot read property 'map' of undefined")
  | JNull => Throws (Error "Cannot read property 'map' of null")
  | _ => Throws (Error "map is not a function")
  end.

(** The summary line: Found N card(s), matched M. *)
Definition render_summary (results : JSValue) : Outcome Node :=
  cards_found ← get results "cards_found";
  cards_matched ← get results "cards_matched";
  Returns (Text [Sheet "summary"]
             [Str "Found "; Value cards_found; Str " card";
              Value (if bool_decide (cards_found = JNum 1)
                     then JStr EmptyString else JStr "s");
              Str ", "; Str "matched "; Value cards_matched]).

(** The selection after a sequence of presses on cards, each press
    calling [toggleCardSelection] with the card's number. *)
Definition selection_after {A} `{EqDecision A} (selectedCards : list A)
    (presses : list A) : list A :=
  fold_left (fun prev cardNumber => toggleCardSelection cardNumber prev)
    presses selectedCards.

(** An alert: title, message, and the labels of its buttons when it names
    any. *)
Record Dialog : Type := {
  dialog_title : string;
  dialog_message : string;
  dialog_buttons : list string
}.

(** [addToCollection]: the alert it shows. *)
Definition addToCollection {A} (selectedCards : list A) : Dialog :=
  if (length selectedCards =? 0)%nat then
    {| dialog_title := "No Cards Selected";
       dialog_message := "Please select at least one card to add.";
       dialog_buttons := [] |}
  else
    {| dialog_title := "Coming Soon";
       dialog_message :=
         "Collection management will be added in a future update!";
       dialog_buttons := ["OK"] |}.

(** [openScryfall(uri)]: the URL handed to [Linking.openURL], if any. *)
Definition openScryfall (uri : JSValue) : option JSValue :=
  if truthy uri then Some uri else None.

(** Calling an [onPress] handler: the next selection and the URL opened,
    if any. *)
Definition press (selectedCards : list JSValue) (a : Action)
  : Outcome (list JSValue * option JSValue) :=
  match a with
  | ToggleCardSelection cardNumber =>
      Returns (toggleCardSelection cardNumber selectedCards, None)
  | OpenScryfall card =>
      scryfall_uri ← get card "scryfall_uri";
      Returns (selectedCards, openScryfall scryfall_uri)
  end.

(** The [onPress] handlers of a rendered tree, outermost first. *)
Fixpoint actions (n : Node) : list Action :=
  let all := fix all (l : list Node) : list Action :=
               match l with
               | [] => []
               | child :: rest => actions child ++ all rest
               end in
  match n with
  | View _ children | Text _ children => all children
  | TouchableOpacity _ onPress children => onPress :: all children
  | Value _ | Str _ | Image _ _ _ | MaterialIcons _ _ _ => []
  end.

(** Whether the outermost element carries the [cardSelected] style. *)
Definition highlighted (n : Node) : bool :=
  match n with
  | TouchableOpacity style _ _ | View style _ | Text style _ =>
      existsb (fun st => match st with
                         | Sheet name => String.eqb name "cardSelected"
                         | _ => false
                         end) style
  | _ => false
  end.

End ScanResultsScreen.

(** ** The card recognition pipeline behind [/scan] *)

Module Pipeline.
Import JS.

(** Modelled from the spec: the backend sources (main.py,
    card_detection.py, card_matching.py, scryfall_integration.py) are not
    among the client sources embedded above; the data model follows the
    spec's section 3.  A fingerprint is a bit vector of one fixed length,
    so two fingerprints of different lengths never meet. *)
Definition Fingerprint (fp_len : nat) : Type := vec bool fp_len.

(** Modelled from the spec: the ReferenceRecord of section 3 (the index
    builder and its artifact are not among the sources). *)
Record ReferenceRecord (fp_len : nat) : Type := {
  ref_identity : string;
  ref_fingerprint : Fingerprint fp_len;
  ref_display_name : string;
  ref_set_code : string;
  ref_rarity : string
}.
Arguments ref_identity {fp_len} r.
Arguments ref_fingerprint {fp_len} r.
Arguments ref_display_name {fp_len} r.
Arguments ref_set_code {fp_len} r.
Arguments ref_rarity {fp_len} r.

(** Modelled from the spec: the Reference Index of section 2, the loaded
    records in their fixed iteration order. *)
Abbreviation Index fp_len := (list (ReferenceRecord fp_len)).

(** Modelled from the spec: the number of positions at which two bit
    lists differ (card_matching.py is not among the sources). *)
Fixpoint differing (a b : list bool) : nat :=
  match a, b with
  | x :: a', y :: b' => (if xorb x y then 1 else 0) + differing a' b'
  | _, _ => 0
  end%nat.

(** Modelled from the spec: the glossary's Hamming distance, the count of
    differing bit positions between two equal-length bit vectors. *)
Definition hamming {fp_len} (a b : Fingerprint fp_len) : nat :=
  differing (vec_to_list a) (vec_to_list b).

(** Modelled from the spec: the two thresholds the Matcher is configured
    with (section 4.4), the maximum acceptable distance and the minimum
    confidence (card_matching.py is not among the sources). *)
Record Config : Type := {
  max_distance : nat;
  min_confidence : Z
}.

(** Modelled from the spec: the confidence mapping of section 4.4.  The
    spec fixes the two ends, 100 at distance 0 and 0 at or beyond the
    maximum acceptable distance, and the direction; the mapping taken
    here is the straight line between the two ends, as the whole number
    between 0 and 100 that the response of section 6 carries (the
    backend's own mapping is not among the sources). *)
Definition confidence_of (cfg : Config) (d : nat) : Z :=
  if (max_distance cfg <=? d)%nat then 0
  else 100 - (100 * Z.of_nat d) / Z.of_nat (max_distance cfg).

(** Modelled from the spec: the scan-mode selector of section 6, with its
    two recognized values. *)
Inductive ScanMode : Type := Default | Pro.

(** Modelled from the spec: the Matcher's exhaustive scan (section 4.4).
    The best candidate so far is replaced only by a strictly nearer
    record, so among records at the minimum distance the first in
    iteration order is the answer. *)
Definition scan_step {fp_len} (q : Fingerprint fp_len)
    (best : option (ReferenceRecord fp_len * nat))
    (r : ReferenceRecord fp_len) : option (ReferenceRecord fp_len * nat) :=
  let d := hamming q (ref_fingerprint r) in
  match best with
  | None => Some (r, d)
  | Some (_, d_best) => if (d <? d_best)%nat then Some (r, d) else best
  end.

(** Modelled from the spec: the scan over the whole index, from no
    candidate at all. *)
Definition nearest {fp_len} (index : Index fp_len) (q : Fingerprint fp_len)
  : option (ReferenceRecord fp_len * nat) :=
  fold_left (scan_step q) index None.


(** Modelled from the spec: a MatchResult without its region index (the
    orchestrator numbers the regions).  The record found is kept for the
    static metadata of a matched card. *)
Record MatchResult (fp_len : nat) : Type := {
  m_matched : bool;
  m_record : option (ReferenceRecord fp_len);
  m_confidence : Z;
  m_distance : option nat
}.
Arguments m_matched {fp_len} m.
Arguments m_record {fp_len} m.
Arguments m_confidence {fp_len} m.
Arguments m_distance {fp_len} m.

(** Modelled from the spec: the identity of a MatchResult, present on a
    match only. *)
Definition m_identity {fp_len} (m : MatchResult fp_len) : option string :=
  ref_identity <$> m_record m.

(** Modelled from the spec: the Matcher's answer.  A nearest record is
    reported as a match when its distance does not exceed the maximum
    acceptable distance and its confidence is not below the minimum; else
    the result is unmatched and carries no identity. *)
Definition match_fingerprint {fp_len} (cfg : Config) (index : Index fp_len)
    (q : Fingerprint fp_len) : MatchResult fp_len :=
  match nearest index q with
  | None =>
      {| m_matched := false; m_record := None;
         m_confidence := 0; m_distance := None |}
  | Some (r, d) =>
      let c := confidence_of cfg d in
      let is_match :=
        negb (max_distance cfg <? d)%nat && negb (c <? min_confidence cfg) in
      {| m_matched := is_match;
         m_record := if is_match then Some r else None;
         m_confidence := c;
         m_distance := Some d |}
  end.

(** Modelled from the spec: the process-wide state of section 4.4, the
    loaded Reference Index or none, with its explicit load. *)
Record Process (fp_len : nat) : Type := {
  loaded_index : option (Index fp_len)
}.
Arguments loaded_index {fp_len} p.

(** Modelled from the spec: the process starts with no index. *)
Definition startup {fp_len} : Process fp_len := {| loaded_index := None |}.

(** Modelled from the spec: loading replaces the snapshot as a whole. *)
Definition load_index {fp_len} (records : Index fp_len) (p : Process fp_len)
  : Process fp_len :=
  {| loaded_index := Some records |}.

(** Modelled from the spec: the database-unavailable condition of
    section 4.4. *)
Inductive MatchFailure : Type := DatabaseUnavailable.

(** Modelled from the spec: one query against the process; the index is
    read, never written. *)
Definition query {fp_len} (cfg : Config) (p : Process fp_len)
    (q : Fingerprint fp_len)
  : Process fp_len * (MatchFailure + MatchResult fp_len) :=
  match loaded_index p with
  | None => (p, inl DatabaseUnavailable)
  | Some index => (p, inr (match_fingerprint cfg index q))
  end.

(** Modelled from the spec: the price fields of the response of section
    6 (scryfall_integration.py is not among the sources). *)
Record Prices : Type := {
  usd : option string;
  usd_foil : option string;
  eur : option string;
  tix : option string
}.

(** Modelled from the spec: what the Enrichment Client brings back for
    one identity when the call succeeds (section 4.5), each piece
    optional. *)
Record Metadata : Type := {
  live_name : option string;
  live_set : option string;
  live_rarity : option string;
  live_prices : option Prices;
  live_image : option string;
  live_uri : option string
}.

(** Modelled from the spec: the outcomes of one enrichment call
    (sections 4.5 and 5). *)
Inductive EnrichOutcome : Type :=
| Enriched (m : Metadata)
| EnrichFailed
| EnrichTimedOut.

(** Modelled from the spec: the external catalog as one request meets
    it, the outcome of the enrichment call made for a region (by its
    detection index) and an identity. *)
Definition Catalog : Type := nat -> string -> EnrichOutcome.

(** Modelled from the spec: the EnrichedCard of section 3 with the fields
    of the response of section 6.  [set_name] is the field [set] of the
    response: the catalog's name for the set when enrichment brought one,
    and otherwise the set the ReferenceRecord carries; [set_code] is the
    set the ReferenceRecord carries. *)
Record EnrichedCard : Type := {
  region_index : nat;
  card_number : nat;
  matched : bool;
  confidence : Z;
  distance : option nat;
  catalog_id : option string;
  name : option string;
  set_name : option string;
  set_code : option string;
  rarity : option string;
  prices : option Prices;
  image_url : option string;
  catalog_uri : option string;
  database_unavailable : bool
}.

(** Modelled from the spec: the ScanResult of section 3. *)
Record ScanResult : Type := {
  cards_found : nat;
  cards_matched : nat;
  cards : list EnrichedCard
}.

(** Modelled from the spec: the request-level failures of section 7. *)
Inductive RequestError : Type := InputError | IndexUnavailable.

(** Modelled from the spec: one ScanResult or one top-level failure. *)
Inductive Response : Type :=
| RequestFailed (e : RequestError)
| Success (r : ScanResult).

(** Modelled from the spec: a choice the spec leaves open (sections 4.2
    and 9), whether a region that fails rectification or fingerprinting is
    reported as an unmatched card or left out. *)
Inductive DegeneratePolicy : Type := CountAsUnmatched | ExcludeRegion.

(** Modelled from the spec: the other open choice (sections 4.4 and 7),
    whether a missing index is reported on every card or fails the
    request. *)
Inductive UnavailablePolicy : Type := ReportPerCard | FailRequest.

(** Modelled from the spec: the two choices together. *)
Record Policy : Type := {
  on_degenerate : DegeneratePolicy;
  on_unavailable : UnavailablePolicy
}.

(** Modelled from the spec: the components the orchestrator sequences
    and that this model does not look into (sections 4.1 to 4.3 and 4.6):
    input validation, the Region Detector, the Region Rectifier and the
    Fingerprint Engine, each a function of its input, and the thresholds
    configured for each scan mode. *)
Record Components (RawImage CandidateRegion RectifiedCard : Type)
    (fp_len : nat) : Type := {
  valid_image : RawImage -> bool;
  detect : ScanMode -> RawImage -> list CandidateRegion;
  rectify : RawImage -> CandidateRegion -> option RectifiedCard;
  fingerprint_of : RectifiedCard -> option (Fingerprint fp_len);
  config : ScanMode -> Config
}.
Arguments valid_image {RawImage CandidateRegion RectifiedCard fp_len} c.
Arguments detect {RawImage CandidateRegion RectifiedCard fp_len} c.
Arguments rectify {RawImage CandidateRegion RectifiedCard fp_len} c.
Arguments fingerprint_of {RawImage CandidateRegion RectifiedCard fp_len} c.
Arguments config {RawImage CandidateRegion RectifiedCard fp_len} c.

(** Modelled from the spec: what one region's sub-pipeline ends with
    (sections 4.6 and 7): nothing to match
    (rectification or fingerprinting failed), no index to match against,
    or the Matcher's answer with the outcome of the enrichment call, if
    one was made. *)
Inductive RegionResult (fp_len : nat) : Type :=
| Unidentifiable
| NoDatabase
| Resolved (m : MatchResult fp_len) (e : option EnrichOutcome).
Arguments Unidentifiable {fp_len}.
Arguments NoDatabase {fp_len}.
Arguments Resolved {fp_len} m e.

(** Modelled from the spec: a region's result with the enrichment
    outcome forgotten. *)
Definition without_enrichment {fp_len} (r : RegionResult fp_len)
  : RegionResult fp_len :=
  match r with
  | Resolved m _ => Resolved m None
  | other => other
  end.

Section Orchestrator.
Context {RawImage CandidateRegion RectifiedCard : Type} {fp_len : nat}.
Variable c : Components RawImage CandidateRegion RectifiedCard fp_len.

(** Modelled from the spec: rectification, then fingerprinting, of one
    region; either may fail (section 4.6). *)
Definition region_fingerprint (image : RawImage) (region : CandidateRegion)
  : option (Fingerprint fp_len) :=
  rectify c image region ≫= fingerprint_of c.

(** Modelled from the spec: the sub-pipeline of one region, tagged with
    the region's detection index.  Enrichment is called for a matched
    identity only. *)
Definition region_task (p : Process fp_len) (catalog : Catalog)
    (mode : ScanMode) (image : RawImage) (i : nat) (region : CandidateRegion)
  : nat * RegionResult fp_len :=
  (i,
   match region_fingerprint image region with
   | None => Unidentifiable
   | Some fp =>
       match snd (query (config c mode) p fp) with
       | inl DatabaseUnavailable => NoDatabase
       | inr m => Resolved m (catalog i <$> m_identity m)
       end
   end).

(** Modelled from the spec: the results of the regions, listed in
    detection order. *)
Definition results_of (p : Process fp_len) (catalog : Catalog)
    (mode : ScanMode) (image : RawImage) : list (RegionResult fp_len) :=
  imap (fun i region => snd (region_task p catalog mode image i region))
    (detect c mode image).

(** Modelled from the spec: the order of the original indexes
    (section 9). *)
Definition by_index (a b : nat * RegionResult fp_len) : Prop :=
  (fst a <= fst b)%nat.

(** Modelled from the spec: comparing two indexes is decidable. *)
#[local] Instance by_index_dec a b : Decision (by_index a b) :=
  decide (fst a <= fst b)%nat.

(** Modelled from the spec: joined results are sorted back into
    detection order (sections 5 and 9). *)
Definition sort_by_index (l : list (nat * RegionResult fp_len))
  : list (nat * RegionResult fp_len) :=
  merge_sort by_index l.

(** Modelled from the spec: whether a region's result reaches the
    ScanResult under the policy. *)
Definition kept (pol : Policy) (r : RegionResult fp_len) : bool :=
  match on_degenerate pol, r with
  | ExcludeRegion, Unidentifiable => false
  | _, _ => true
  end.

(** Modelled from the spec: the regions that reach the result, each with
    its detection index, in detection order. *)
Definition kept_regions (pol : Policy) (p : Process fp_len)
    (catalog : Catalog) (mode : ScanMode) (image : RawImage)
  : list (nat * CandidateRegion) :=
  filter (fun jx => kept pol (snd (region_task p catalog mode image
                                     (fst jx) (snd jx))))
    (imap pair (detect c mode image)).

(** Modelled from the spec: the card of a region without a match, with
    the database-unavailable indicator of section 7. *)
Definition unmatched_card (i : nat) (unavailable : bool) : EnrichedCard := {|
  region_index := i; card_number := S i; matched := false;
  confidence := 0; distance := None; catalog_id := None;
  name := None; set_name := None; set_code := None; rarity := None;
  prices := None; image_url := None; catalog_uri := None;
  database_unavailable := unavailable
|}.

(** Modelled from the spec: the metadata of an enrichment call that
    succeeded; a failed or timed-out call brings none (section 4.5). *)
Definition live (e : option EnrichOutcome) : option Metadata :=
  match e with
  | Some (Enriched m) => Some m
  | _ => None
  end.

(** Modelled from the spec: the EnrichedCard of one region.  A matched
    card takes name, set and rarity from its ReferenceRecord unless the
    catalog answered with its own; prices, image and catalog URI come from
    the catalog alone. *)
Definition to_card (i : nat) (r : RegionResult fp_len) : EnrichedCard :=
  match r with
  | Unidentifiable => unmatched_card i false
  | NoDatabase => unmatched_card i true
  | Resolved m e =>
      let meta := live e in
      let rec := m_record m in
      {| region_index := i; card_number := S i;
         matched := m_matched m;
         confidence := m_confidence m;
         distance := m_distance m;
         catalog_id := m_identity m;
         name := (rec ≫= fun r =>
                    Some (default (ref_display_name r) (meta ≫= live_name)));
         set_name := (rec ≫= fun r =>
                        Some (default (ref_set_code r) (meta ≫= live_set)));
         set_code := ref_set_code <$> rec;
         rarity := (rec ≫= fun r =>
                      Some (default (ref_rarity r) (meta ≫= live_rarity)));
         prices := (rec ≫= fun _ => meta ≫= live_prices);
         image_url := (rec ≫= fun _ => meta ≫= live_image);
         catalog_uri := (rec ≫= fun _ => meta ≫= live_uri);
         database_unavailable := false |}
  end.

(** Modelled from the spec: cards_found, the count of CandidateRegions
    (of those not left out, under the policy that leaves some out). *)
Definition count_regions (pol : Policy) (image : RawImage)
    (regions : list CandidateRegion) : nat :=
  match on_degenerate pol with
  | CountAsUnmatched => length regions
  | ExcludeRegion =>
      length (filter (fun r => is_Some (region_fingerprint image r)) regions)
  end.

(** Modelled from the spec: the Pipeline Orchestrator (sections 4.6, 5 and
    9).  The regions' sub-pipelines run as independent tasks; [completion]
    is the order in which they happen to finish; the joined results are
    sorted back into detection order and numbered.  The process state is
    handed back as it was received. *)
Definition scan (pol : Policy) (p : Process fp_len) (catalog : Catalog)
    (completion : list (nat * RegionResult fp_len) ->
                  list (nat * RegionResult fp_len))
    (mode : ScanMode) (image : RawImage) : Process fp_len * Response :=
  if negb (valid_image c image) then (p, RequestFailed InputError)
  else
    match loaded_index p, on_unavailable pol with
    | None, FailRequest => (p, RequestFailed IndexUnavailable)
    | _, _ =>
        let regions := detect c mode image in
        let tasks := imap (region_task p catalog mode image) regions in
        let joined := sort_by_index (completion tasks) in
        let results := filter (fun r => kept pol r) (snd <$> joined) in
        let cards := imap to_card results in
        (p, Success {| cards_found := count_regions pol image regions;
                       cards_matched :=
                         length (filter (fun k => matched k = true) cards);
                       cards := cards |})
    end.

End Orchestrator.

(** Modelled from the spec: an optional field of the response of section
    6; an absent one is left out. *)
Definition field (k : string) (v : option JSValue)
  : list (string * JSValue) :=
  match v with
  | Some x => [(k, x)]
  | None => []
  end.

(** Modelled from the spec: the [prices] object of section 6. *)
Definition prices_to_json (p : Prices) : JSValue :=
  JObj (field "usd" (JStr <$> usd p) ++ field "usd_foil" (JStr <$> usd_foil p)
        ++ field "eur" (JStr <$> eur p) ++ field "tix" (JStr <$> tix p)).

(** Modelled from the spec: one entry of [cards] in section 6. *)
Definition card_to_json (k : EnrichedCard) : JSValue :=
  JObj ([("card_number", JNum (Z.of_nat (card_number k)));
         ("matched", JBool (matched k));
         ("confidence", JNum (confidence k))]
        ++ field "name" (JStr <$> name k)
        ++ field "set" (JStr <$> set_name k)
        ++ field "set_code" (JStr <$> set_code k)
        ++ field "rarity" (JStr <$> rarity k)
        ++ field "image_url" (JStr <$> image_url k)
        ++ field "catalog_id" (JStr <$> catalog_id k)
        ++ field "prices" (prices_to_json <$> prices k)).

(** Modelled from the spec: the response of section 6, as the JSON value
    the client receives. *)
Definition result_to_json (r : ScanResult) : JSValue :=
  JObj [("success", JBool true);
        ("cards_found", JNum (Z.of_nat (cards_found r)));
        ("cards_matched", JNum (Z.of_nat (cards_matched r)));
        ("cards", JArr (card_to_json <$> cards r))].

End Pipeline.

(** ** Sample environments and payloads *)

Module Examples.
Import JS Api.

(** No connection: [fetch] rejects. *)
Definition network_down : Fetch :=
  fun _ => Throws (Error "Network request failed").

(** The backend answers 200 with a JSON body. *)
Definition answers (data : JSValue) : Fetch :=
  fun _ => Returns {| ok := true; status := 200;
                      text := Returns "(body)"; json := Returns data |}.


(** The body of a scan that found nothing. *)
Definition empty_scan : JSValue :=
  JObj [("success", JBool true); ("cards_found", JNum 0);
        ("cards_matched", JNum 0); ("cards", JArr [])].

(** A body that says nothing about success. *)
Definition body_without_success : JSValue :=
  JObj [("cards_found", JNum 0); ("cards_matched", JNum 0);
        ("cards", JArr [])].

(** A matched card as the backend's README shows it. *)
Definition bolt : JSValue :=
  JObj [("card_number", JNum 1); ("matched", JBool true);
        ("confidence", JNum 95); ("name", JStr "Lightning Bolt");
        ("set", JStr "Alpha"); ("set_code", JStr "lea");
        ("rarity", JStr "common")].

(** A matched card that carries no set code. *)
Definition bolt_without_set_code : JSValue :=
  JObj [("card_number", JNum 1); ("matched", JBool true);
        ("confidence", JNum 95); ("name", JStr "Lightning Bolt");
        ("set", JStr "Alpha"); ("rarity", JStr "common")].

(** A small index of four-bit fingerprints and a toy front end: an image
    is the list of its regions, and a region is the fingerprint its card
    will have, or nothing when it cannot be rectified. *)
Import Pipeline.

(** A four-bit fingerprint. *)
Definition bits (a b c d : bool) : Fingerprint 4 := [# a; b; c; d].

(** Two records of the sample index. *)
Definition bolt_record : ReferenceRecord 4 := {|
  ref_identity := "bolt-lea";
  ref_fingerprint := bits true false true false;
  ref_display_name := "Lightning Bolt";
  ref_set_code := "lea";
  ref_rarity := "common"
|}.

Definition lotus_record : ReferenceRecord 4 := {|
  ref_identity := "lotus-lea";
  ref_fingerprint := bits false true true false;
  ref_display_name := "Black Lotus";
  ref_set_code := "lea";
  ref_rarity := "rare"
|}.

(** The sample index, bolt first. *)
Definition sample_index : Index 4 := [bolt_record; lotus_record].

(** At most four bits apart, unmatched below 50. *)
Definition sample_config : Config :=
  {| max_distance := 4; min_confidence := 50 |}.

(** The toy front end. *)
Definition sample_components
  : Components (list (option (Fingerprint 4))) (option (Fingerprint 4))
      (Fingerprint 4) 4 := {|
  valid_image := fun _ => true;
  detect := fun _ image => image;
  rectify := fun _ region => region;
  fingerprint_of := fun card => Some card;
  config := fun _ => sample_config
|}.

(** A region that cannot be identified counts as an unmatched card. *)
Definition sample_policy : Policy :=
  {| on_degenerate := CountAsUnmatched; on_unavailable := ReportPerCard |}.

(** The process once the sample index is loaded. *)
Definition sample_process : Process 4 := load_index sample_index startup.

(** A bolt, a region that cannot be rectified, and a card one bit away
    from the lotus. *)
Definition sample_image : list (option (Fingerprint 4)) :=
  [Some (bits true false true false); None;
   Some (bits false true true true)].

(** The catalog cannot be reached. *)
Definition catalog_down : Catalog := fun _ _ => EnrichFailed.

(** The catalog answers every call with a set name, prices and links. *)
Definition catalog_up : Catalog := fun _ _ =>
  Enriched {| live_name := None; live_set := Some "Limited Edition Alpha";
              live_rarity := None;
              live_prices := Some {| usd := Some "2.50"; usd_foil := None;
                                     eur := Some "2.00"; tix := None |};
              live_image := Some "https://img.example/card.jpg";
              live_uri := Some "https://catalog.example/card" |}.

(** One scan with the catalog unreachable and the tasks finishing in
    reverse order. *)
Definition sample_scan : Process 4 * Response :=
  scan sample_components sample_policy sample_process catalog_down reverse
    Default sample_image.

End Examples.

(** * Properties *)

(** ** Strings *)

Section StringFacts.
Import JS Api.

Lemma append_nil (b : string) : EmptyString +:+ b = b.
Proof. reflexivity. Qed.

Lemma append_cons c (a b : string) : String c a +:+ b = String c (a +:+ b).
Proof. reflexivity. Qed.

Lemma split_nonempty sep s : split sep s <> [].
Proof.
  destruct s as [|c t]; cbn [split]; [discriminate|].
  destruct (Ascii.eqb c sep); [discriminate|].
  destruct (split sep t); discriminate.
Qed.

(** A string without the separator is its own only segment. *)
Lemma split_no_sep sep s : occurs sep s = false -> split sep s = [s].
Proof.
  induction s as [|c t IH]; cbn [split occurs]; intros H; [reflexivity|].
  apply orb_false_iff in H as [Hc Ht]. rewrite Hc, (IH Ht). reflexivity.
Qed.

Lemma split_app sep d name :
  split sep (d +:+ String sep name) = split sep d ++ split sep name.
Proof.
  induction d as [|c d IH];
    rewrite ?append_nil, ?append_cons; cbn [split].
  - rewrite Ascii.eqb_refl. reflexivity.
  - destruct (Ascii.eqb c sep); [rewrite IH; reflexivity|].
    rewrite IH. pose proof (split_nonempty sep d) as Hd.
    destruct (split sep d) as [|h rest]; [contradiction|reflexivity].
Qed.

Lemma occurs_app c a b : occurs c (a +:+ b) = occurs c a || occurs c b.
Proof.
  induction a as [|x a IH]; rewrite ?append_nil, ?append_cons;
    cbn [occurs]; [reflexivity|].
  rewrite IH. apply orb_assoc.
Qed.


End StringFacts.

(** ** services/api.js and screens/CameraScreen.js *)

Section ApiFacts.
Import JS Api CameraScreen.




(** Whatever is caught is thrown again, as it is or under a more helpful
    message. *)
Lemma scanCards_catch_raises (error : JSError) :
  raises (scanCards_catch error).
Proof.
  unfold scanCards_catch, raises.
  destruct (includes (message error) "Network request failed"); [eauto|].
  destruct (includes (message error) "timeout"); eauto.
Qed.

Lemma scanCards_raises_try fetch imageUri scanMode :
  raises (scanCards fetch imageUri scanMode)
  <-> raises (scanCards_try fetch imageUri scanMode).
Proof.
  unfold scanCards.
  destruct (scanCards_try fetch imageUri scanMode) as [data|e]; simpl.
  - split; intros [e He]; discriminate.
  - split; intros _; [eexists; reflexivity | apply scanCards_catch_raises].
Qed.

Lemma scanCards_returns_try fetch imageUri scanMode data :
  scanCards fetch imageUri scanMode = Returns data
  <-> scanCards_try fetch imageUri scanMode = Returns data.
Proof.
  unfold scanCards.
  destruct (scanCards_try fetch imageUri scanMode) as [d|e]; simpl.
  - reflexivity.
  - split; [|discriminate].
    intros H. destruct (scanCards_catch_raises e) as [e' He'].
    rewrite He' in H. discriminate.
Qed.

(** What the [try] block does with each answer of the environment. *)
Lemma scanCards_try_cases fetch imageUri scanMode :
  match fetch (scan_request imageUri scanMode) with
  | Throws e => scanCards_try fetch imageUri scanMode = Throws e
  | Returns r =>
      if ok r then
        match json r with
        | Throws e => scanCards_try fetch imageUri scanMode = Throws e
        | Returns data =>
            match get data "success" with
            | Throws e => scanCards_try fetch imageUri scanMode = Throws e
            | Returns s =>
                if truthy s
                then scanCards_try fetch imageUri scanMode = Returns data
                else raises (scanCards_try fetch imageUri scanMode)
            end
        end
      else raises (scanCards_try fetch imageUri scanMode)
  end.
Proof.
  unfold scanCards_try, mbind, outcome_bind.
  destruct (fetch (scan_request imageUri scanMode)) as [r|e]; simpl; [|done].
  destruct (ok r); simpl.
  - destruct (json r) as [data|e]; simpl; [|done].
    destruct (get data "success") as [s|e] eqn:Hs; simpl; [|done].
    destruct (truthy s); simpl; [done|].
    destruct (get data "message") as [m|e]; simpl; eexists; reflexivity.
  - destruct (text r); simpl; eexists; reflexivity.
Qed.

(** An ok response whose parsed body has a truthy [success] is returned. *)
Lemma scanCards_accepts (fetch : Fetch) imageUri scanMode r data sv :
  fetch (scan_request imageUri scanMode) = Returns r -> ok r = true ->
  json r = Returns data ->
  get data "success" = Returns sv -> truthy sv = true ->
  scanCards fetch imageUri scanMode = Returns data.
Proof.
  intros Hr Hok Hjson Hsv Ht. apply scanCards_returns_try.
  pose proof (scanCards_try_cases fetch imageUri scanMode) as Hc.
  rewrite Hr, Hok, Hjson, Hsv, Ht in Hc. exact Hc.
Qed.

(** C4, as amended: [scanCards] raises an error if and only if the request
    itself fails (network failure, timeout), or the HTTP response is not
    ok, or the body of an ok response cannot be parsed, or the parsed body
    has no truthy [success] (it is [false], missing, [null], [0] or empty,
    or the body is [null]); for every response with ok status whose parsed
    body has a truthy [success], it returns the parsed body unchanged. *)
Theorem scanCards_raises_iff :
  forall (fetch : Fetch) (imageUri : string) (scanMode : option string),
    let req := scan_request imageUri scanMode in
    (raises (scanCards fetch imageUri scanMode) <->
       (exists e, fetch req = Throws e)
       \/ (exists r, fetch req = Returns r /\
             (ok r = false
              \/ (exists e, json r = Throws e)
              \/ (exists data, json r = Returns data /\
                    ((exists e, get data "success" = Throws e)
                     \/ (exists s, get data "success" = Returns s
                                    /\ truthy s = false))))))
    /\ (forall r data s,
          fetch req = Returns r -> ok r = true ->
          json r = Returns data ->
          get data "success" = Returns s -> truthy s = true ->
          scanCards fetch imageUri scanMode = Returns data).
Proof.
  intros fetch imageUri scanMode req.
  pose proof (scanCards_try_cases fetch imageUri scanMode) as Hc.
  fold req in Hc. split.
  - rewrite scanCards_raises_try. split.
    + intros Hr. destruct (fetch req) as [r|e]; [|left; eauto].
      right. exists r. split; [reflexivity|].
      destruct (ok r); [|left; reflexivity]. right.
      destruct (json r) as [data|e]; [|left; eauto].
      right. exists data. split; [reflexivity|].
      destruct (get data "success") as [s|e]; [|left; eauto].
      right. exists s. split; [reflexivity|].
      destruct (truthy s); [|reflexivity].
      destruct Hr as [e He]. rewrite Hc in He. discriminate.
    + intros [[e He] | (r & Hr & Hcase)].
      * rewrite He in Hc. eexists; exact Hc.
      * rewrite Hr in Hc. destruct (ok r) eqn:Hok; [|exact Hc].
        destruct Hcase as [Hf | [[e He] | (data & Hd & Hs)]];
          [discriminate | |].
        -- rewrite He in Hc. eexists; exact Hc.
        -- rewrite Hd in Hc.
           destruct Hs as [[e He] | (s & Hs & Ht)]; rewrite ?He, ?Hs in Hc.
           ++ eexists; exact Hc.
           ++ rewrite Ht in Hc. exact Hc.
  - intros r data s Hr Hok Hd Hs Ht. apply scanCards_returns_try.
    rewrite Hr, Hok, Hd, Hs, Ht in Hc. exact Hc.
Qed.

(** The backend answers an empty scan: the body comes back as it is. *)
Lemma scanCards_raises_iff_witness :
  scanCards (Examples.answers Examples.empty_scan) "file:///tmp/cards.jpg"
    (Some "pro") = Returns Examples.empty_scan.
Proof.
  refine (proj2 (scanCards_raises_iff (Examples.answers Examples.empty_scan)
                   "file:///tmp/cards.jpg" (Some "pro"))
            _ Examples.empty_scan (JBool true) _ _ _ _ _); reflexivity.
Defined.

(** C4, as stated, fails: [scanCards] also raises when there is no HTTP
    response at all (the connection is down), and when an ok response's
    body leaves [success] out; in neither case is the response not ok or
    [success] equal to false. *)
Lemma scanCards_raises_without_claimed_cause :
  let claimed_cause (fetch : Fetch) (req : Request) :=
    exists r, fetch req = Returns r /\
      (ok r = false
       \/ exists data, json r = Returns data
                       /\ get data "success" = Returns (JBool false)) in
  let req := scan_request "file:///tmp/cards.jpg" None in
  (raises (scanCards Examples.network_down "file:///tmp/cards.jpg" None)
   /\ ~ claimed_cause Examples.network_down req)
  /\ (raises (scanCards (Examples.answers Examples.body_without_success)
                "file:///tmp/cards.jpg" None)
      /\ ~ claimed_cause (Examples.answers Examples.body_without_success)
            req).
Proof.
  cbv zeta. repeat split.
  - eexists. vm_compute. reflexivity.
  - intros (r & Hr & _). discriminate.
  - eexists. vm_compute. reflexivity.
  - intros (r & Hr & [Hok | (data & Hd & Hs)]).
    + injection Hr as <-. discriminate.
    + injection Hr as <-. injection Hd as <-. discriminate.
Qed.

(** C10: [testConnection] never raises: it returns a boolean, [true]
    exactly when the backend root endpoint answered with ok status, and
    [false] for every error thrown on the way. *)
Theorem testConnection_total :
  forall fetch : Fetch,
    exists b : bool,
      testConnection fetch = Returns b
      /\ (b = true <->
            exists r, fetch connection_request = Returns r /\ ok r = true)
      /\ ((exists e, fetch connection_request = Throws e) -> b = false)
      /\ url connection_request = getApiUrl.
Proof.
  intros fetch. unfold testConnection, mbind, outcome_bind.
  destruct (fetch connection_request) as [r|e]; simpl.
  - exists (ok r). repeat split.
    + intros H. exists r. split; [reflexivity | exact H].
    + intros (r' & Hr & Hok). injection Hr as <-. exact Hok.
    + intros [e He]. discriminate.
  - exists false. repeat split.
    + discriminate.
    + intros (r & Hr & _). discriminate.
Qed.





End ApiFacts.

(** ** screens/ScanResultsScreen.js *)

Section ScreenFacts.
Import JS ScanResultsScreen.

Section Toggle.
Context {A : Type} `{EqDecision A}.
Implicit Types (n m : A) (l : list A).

Lemma toggle_absent n l : n ∉ l -> toggleCardSelection n l = l ++ [n].
Proof.
  intros Hn. unfold toggleCardSelection.
  rewrite bool_decide_eq_false_2 by exact Hn. reflexivity.
Qed.

Lemma toggle_present n l :
  n ∈ l -> toggleCardSelection n l = filter (fun k => k ≠ n) l.
Proof.
  intros Hn. unfold toggleCardSelection.
  rewrite bool_decide_eq_true_2 by exact Hn. reflexivity.
Qed.

Lemma toggle_flips n l : n ∈ toggleCardSelection n l <-> n ∉ l.
Proof.
  destruct (decide (n ∈ l)) as [Hin|Hout].
  - rewrite toggle_present by exact Hin. rewrite list_elem_of_filter.
    split; [intros [Hne _]; congruence | contradiction].
  - rewrite toggle_absent by exact Hout. rewrite elem_of_app.
    split; [intros _; exact Hout | intros _; right; by apply list_elem_of_singleton].
Qed.

Lemma toggle_others n m l :
  m ≠ n -> (m ∈ toggleCardSelection n l <-> m ∈ l).
Proof.
  intros Hne. destruct (decide (n ∈ l)) as [Hin|Hout].
  - rewrite toggle_present by exact Hin. rewrite list_elem_of_filter. tauto.
  - rewrite toggle_absent by exact Hout. rewrite elem_of_app.
    rewrite list_elem_of_singleton. tauto.
Qed.

(** The other card numbers keep their places and their multiplicities. *)
Lemma toggle_others_kept n l :
  filter (fun k => k ≠ n) (toggleCardSelection n l)
  = filter (fun k => k ≠ n) l.
Proof.
  destruct (decide (n ∈ l)) as [Hin|Hout].
  - rewrite toggle_present by exact Hin. rewrite list_filter_filter.
    apply list_filter_iff. tauto.
  - rewrite toggle_absent by exact Hout. rewrite filter_app.
    rewrite filter_cons, decide_False by (intros Hc; by apply Hc).
    rewrite filter_nil. apply app_nil_r.
Qed.

(** C9: [toggleCardSelection] is an involution on the selection state:
    applied twice it restores the membership of the card number (and of
    every other one); applied once it appends the number when it is absent
    and removes every occurrence of it when it is present, and the other
    card numbers stay as they were. *)
Theorem toggleCardSelection_involution :
  forall n l,
    (forall m,
        m ∈ toggleCardSelection n (toggleCardSelection n l) <-> m ∈ l)
    /\ (n ∉ l -> toggleCardSelection n l = l ++ [n])
    /\ (n ∈ l ->
        toggleCardSelection n l = filter (fun k => k ≠ n) l
        /\ n ∉ toggleCardSelection n l)
    /\ (forall m, m ≠ n -> (m ∈ toggleCardSelection n l <-> m ∈ l))
    /\ filter (fun k => k ≠ n) (toggleCardSelection n l)
       = filter (fun k => k ≠ n) l.
Proof.
  intros n l. repeat split.
  - destruct (decide (m = n)) as [->|Hne].
    + rewrite toggle_flips, toggle_flips. intros Hnn.
      destruct (decide (n ∈ l)); [assumption | contradiction].
    + rewrite !toggle_others by exact Hne. tauto.
  - destruct (decide (m = n)) as [->|Hne].
    + rewrite toggle_flips, toggle_flips. tauto.
    + rewrite !toggle_others by exact Hne. tauto.
  - apply toggle_absent.
  - apply toggle_present. assumption.
  - rewrite toggle_flips. tauto.
  - apply toggle_others. assumption.
  - apply toggle_others. assumption.
  - apply toggle_others_kept.
Qed.

End Toggle.

(** Card 2, selected twice over, is deselected; absent, it is appended. *)
Lemma toggleCardSelection_involution_witness :
  toggleCardSelection 2 [1; 2; 3; 2] = [1; 3]
  /\ toggleCardSelection 2 [1; 3] = [1; 3; 2].
Proof.
  split.
  - refine (proj1 (proj1 (proj2 (proj2
              (toggleCardSelection_involution 2 [1; 2; 3; 2]))) _)).
    vm_compute. constructor. constructor.
  - refine (proj1 (proj2 (toggleCardSelection_involution 2 [1; 3])) _).
    intros Hin. vm_compute in Hin.
    repeat (inversion Hin as [|? ? ? Hin']; subst; clear Hin;
            try rename Hin' into Hin).
Defined.

(** A card whose [matched] is truthy is an object. *)
Lemma matched_card_object card m :
  get card "matched" = Returns m -> truthy m = true ->
  exists props, card = JObj props.
Proof.
  destruct card; simpl; intros Hm Ht; try discriminate;
    try (injection Hm as <-; discriminate).
  eexists; reflexivity.
Qed.

Lemma guarded_value cond node :
  guarded cond (Returns node)
  = Returns (if truthy cond then node else Value cond).
Proof. unfold guarded. destruct (truthy cond); reflexivity. Qed.

(** The price section never throws: under its guard [prices] is neither
    [null] nor [undefined], and each price is guarded in turn. *)
Lemma price_section_returns prices :
  exists node, price_section prices = Returns node.
Proof.
  unfold price_section, guarded. destruct (truthy prices) eqn:Hp; [|eauto].
  destruct prices; try discriminate Hp; cbn [get];
    unfold mbind, outcome_bind, price_row; cbn [bind];
    repeat (rewrite guarded_value; cbn [bind]); eauto.
Qed.

(** The rarity badge is guarded against an absent rarity only. *)
Lemma rarity_badge_returns rarity :
  (exists node, rarity_badge rarity = Returns node)
  <-> (truthy rarity = false \/ exists s, rarity = JStr s).
Proof.
  unfold rarity_badge, guarded. destruct (truthy rarity) eqn:Hr.
  - destruct rarity; simpl; try discriminate Hr.
    all: split; [intros [? ?]; try discriminate; eauto
                | intros [? | [? ?]]; try discriminate; eauto].
  - split; eauto.
Qed.

(** C8: rendering a matched card succeeds only if [set_code] is a defined
    string, since [card.set_code.toUpperCase()] is evaluated without a
    guard; the other optional fields are guarded: [image_url], [prices] and
    [collector_number] never matter for success, and [rarity] only when it
    is present (then it must be a string as well). *)
Theorem renderCard_needs_set_code :
  forall (selectedCards : list JSValue) (card m : JSValue),
    get card "matched" = Returns m -> truthy m = true ->
    ((exists out, renderCard selectedCards card = Returns out) <->
       (exists s, get card "set_code" = Returns (JStr s))
       /\ (exists r, get card "rarity" = Returns r
                     /\ (truthy r = false \/ exists s, r = JStr s))).
Proof.
  intros selectedCards card m Hm Ht.
  destruct (matched_card_object card m Hm Ht) as [props ->].
  simpl in Hm. injection Hm as Hm.
  unfold renderCard. cbn [get]. unfold mbind, outcome_bind. cbn [bind].
  rewrite Hm, Ht. cbn [negb]. rewrite !guarded_value. cbn [bind].
  generalize (lookup_prop "set_code" props) as sc.
  generalize (lookup_prop "rarity" props) as ra.
  intros ra sc.
  destruct (price_section_returns (lookup_prop "prices" props)) as [rows ->].
  destruct sc as [| | | |s| |]; cbn [toUpperCase bind];
    try (split; [intros [? ?]; discriminate
                | intros [[? ?] _]; discriminate]).
  destruct (rarity_badge ra) as [node|e] eqn:Hb; cbn [bind].
  - split; [|intros _; eexists; reflexivity].
    intros _. split; [eexists; reflexivity|].
    exists ra. split; [reflexivity|].
    apply rarity_badge_returns. eexists; exact Hb.
  - split; [intros [? ?]; discriminate|].
    intros [_ (r & Hr & Hcond)]. injection Hr as <-.
    apply rarity_badge_returns in Hcond. destruct Hcond as [node Hn].
    rewrite Hn in Hb. discriminate.
Qed.

(** A bolt renders; the same card without its set code does not. *)
Lemma renderCard_needs_set_code_witness :
  (exists out, renderCard [] Examples.bolt = Returns out)
  /\ ~ (exists out,
          renderCard [JNum 1] Examples.bolt_without_set_code = Returns out).
Proof.
  split.
  - apply (proj2 (renderCard_needs_set_code [] Examples.bolt (JBool true)
                    eq_refl eq_refl)).
    split; [exists "lea"; reflexivity|].
    exists (JStr "common"). split; [reflexivity|].
    right. eexists; reflexivity.
  - intros H.
    apply (proj1 (renderCard_needs_set_code [JNum 1]
                    Examples.bolt_without_set_code (JBool true)
                    eq_refl eq_refl)) in H.
    destruct H as [[s Hs] _]. discriminate Hs.
Defined.

(** A matched card whose set code is a string, and whose rarity is absent
    or a string, is rendered. *)
Lemma renderCard_matched_returns selectedCards props s :
  truthy (lookup_prop "matched" props) = true ->
  lookup_prop "set_code" props = JStr s ->
  (truthy (lookup_prop "rarity" props) = false
   \/ exists s', lookup_prop "rarity" props = JStr s') ->
  exists out, renderCard selectedCards (JObj props) = Returns out.
Proof.
  intros Hm Hs Hr. unfold renderCard. cbn [get].
  unfold mbind, outcome_bind. cbn [bind].
  rewrite Hm, Hs. cbn [negb toUpperCase]. rewrite !guarded_value. cbn [bind].
  apply rarity_badge_returns in Hr as [badge ->].
  destruct (price_section_returns (lookup_prop "prices" props)) as [rows ->].
  cbn [bind]. eexists; reflexivity.
Qed.

(** The key of a rendered card is its card number. *)
Lemma renderCard_key selectedCards card key node :
  renderCard selectedCards card = Returns (key, node) ->
  get card "card_number" = Returns key.
Proof.
  unfold renderCard, mbind, outcome_bind.
  destruct (get card "card_number") as [cn|e]; cbn [bind]; [|discriminate].
  destruct (get card "matched") as [m|e]; cbn [bind]; [|discriminate].
  destruct (negb (truthy m)); [intros [= <- _]; reflexivity|].
  repeat match goal with
         | |- bind ?x _ = _ -> _ =>
             destruct x; cbn [bind]; [|discriminate]
         end.
  intros [= <- _]. reflexivity.
Qed.

(** A card that is not matched is rendered whatever else it holds. *)
Lemma renderCard_unmatched_returns selectedCards props :
  truthy (lookup_prop "matched" props) = false ->
  exists out, renderCard selectedCards (JObj props) = Returns out.
Proof.
  intros Hm. unfold renderCard. cbn [get].
  unfold mbind, outcome_bind. cbn [bind]. rewrite Hm. cbn [negb].
  eexists; reflexivity.
Qed.

(** Rendering a list of cards that each render gives one element per
    card, keyed by the card numbers in order. *)
Lemma render_all_keys selectedCards (cards : list JSValue)
    (keys : list JSValue) :
  Forall2 (fun card key =>
             get card "card_number" = Returns key
             /\ exists out, renderCard selectedCards card = Returns out)
    cards keys ->
  exists rendered,
    render_all selectedCards cards = Returns rendered
    /\ fst <$> rendered = keys.
Proof.
  induction 1 as [|card key cards keys [Hkey [[k node] Hout]] _ IH].
  - exists []. split; reflexivity.
  - destruct IH as (rendered & Hrest & Hkeys).
    exists ((k, node) :: rendered). cbn [render_all].
    unfold mbind, outcome_bind. rewrite Hout, Hrest. cbn [bind].
    split; [reflexivity|]. rewrite fmap_cons, Hkeys. cbn [fst].
    apply renderCard_key in Hout. rewrite Hkey in Hout.
    injection Hout as ->. reflexivity.
Qed.

End ScreenFacts.

(** ** The Matcher *)

Section MatcherFacts.
Import Pipeline.
Context {fp_len : nat}.
Implicit Types (q : Fingerprint fp_len) (index : Index fp_len)
  (r : ReferenceRecord fp_len) (d : nat) (cfg : Config).




















End MatcherFacts.

(** ** The Orchestrator *)

Section OrchestratorFacts.
Import Pipeline.
Context {RawImage CandidateRegion RectifiedCard : Type} {fp_len : nat}.
Variable c : Components RawImage CandidateRegion RectifiedCard fp_len.

#[local] Abbreviation Task := (nat * RegionResult fp_len)%type.

#[local] Instance by_index_trans : Transitive (@by_index fp_len).
Proof. intros x y z. unfold by_index. lia. Qed.

#[local] Instance by_index_total : Total (@by_index fp_len).
Proof. intros x y. unfold by_index. lia. Qed.

(** Tasks listed in detection order are sorted by their index. *)
Lemma tasks_sorted {A} (l : list A) (f : nat -> A -> Task) (k : nat) :
  (forall i x, fst (f i x) = (k + i)%nat) ->
  StronglySorted by_index (imap f l).
Proof.
  revert f k. induction l as [|x l IH]; intros f k Hf; [constructor|].
  rewrite imap_cons. constructor.
  - apply (IH _ (S k)). intros i y. simpl. rewrite Hf. lia.
  - apply Forall_forall. intros y Hy.
    apply elem_of_lookup_imap_1 in Hy as (i & z & -> & _).
    unfold by_index. simpl. rewrite !Hf. lia.
Qed.

(** Whatever the order of completion, sorting gives the tasks back in
    detection order. *)
Lemma sort_restores_detection_order {A} (l : list A) (f : nat -> A -> Task)
    (done : list Task) :
  (forall i x, fst (f i x) = i) ->
  done ≡ₚ imap f l ->
  sort_by_index done = imap f l.
Proof.
  intros Hf Hperm. unfold sort_by_index.
  apply (StronglySorted_unique_strong by_index).
  - intros x1 x2 Hx1 Hx2 H12 H21.
    rewrite merge_sort_Permutation, Hperm in Hx1.
    apply elem_of_lookup_imap_1 in Hx1 as (i1 & y1 & -> & Hy1).
    apply elem_of_lookup_imap_1 in Hx2 as (i2 & y2 & -> & Hy2).
    unfold by_index in H12, H21. rewrite !Hf in H12, H21.
    assert (i1 = i2) as -> by lia. congruence.
  - apply StronglySorted_merge_sort; apply _.
  - apply (tasks_sorted l f 0). intros i x. rewrite Hf. reflexivity.
  - rewrite merge_sort_Permutation. exact Hperm.
Qed.

Lemma region_task_index p catalog mode image i region :
  fst (region_task c p catalog mode image i region) = i.
Proof. reflexivity. Qed.

(** The scan does not depend on the order in which the regions' tasks
    finish: it is the scan that takes them in detection order. *)
Lemma scan_in_detection_order pol p catalog completion mode image :
  (forall l, completion l ≡ₚ l) ->
  scan c pol p catalog completion mode image
  = scan c pol p catalog (fun l => l) mode image.
Proof.
  intros Hperm. unfold scan.
  rewrite !(sort_restores_detection_order (detect c mode image)
              (region_task c p catalog mode image));
    auto using region_task_index.
Qed.

Lemma scan_success pol p catalog completion mode image r :
  (forall l, completion l ≡ₚ l) ->
  snd (scan c pol p catalog completion mode image) = Success r ->
  r = {| cards_found := count_regions c pol image (detect c mode image);
         cards_matched :=
           length (filter (fun k => matched k = true) (cards r));
         cards := imap to_card
                    (filter (fun x => kept pol x)
                       (results_of c p catalog mode image)) |}.
Proof.
  intros Hperm. rewrite scan_in_detection_order by exact Hperm.
  unfold scan, results_of.
  rewrite (sort_restores_detection_order (detect c mode image)
             (region_task c p catalog mode image));
    auto using region_task_index.
  rewrite fmap_imap.
  destruct (negb (valid_image c image)); [discriminate|].
  destruct (loaded_index p), (on_unavailable pol); simpl;
    intros H; try discriminate; injection H as <-; reflexivity.
Qed.

Lemma filter_all {A} (P : A -> Prop) `{!forall x, Decision (P x)}
    (l : list A) :
  (forall x, P x) -> filter P l = l.
Proof.
  intros HP. induction l as [|x l IH]; [reflexivity|].
  rewrite filter_cons_True by apply HP. by rewrite IH.
Qed.

(** Filtering indexed results is filtering the indexed inputs. *)
Lemma filter_imap {A B} (P : B -> Prop) `{!forall y, Decision (P y)}
    (g : nat -> A -> B) (h : nat -> nat) (l : list A) :
  filter P (imap (fun i x => g (h i) x) l)
  = (fun jx => g (fst jx) (snd jx))
      <$> filter (fun jx => P (g (fst jx) (snd jx)))
            (imap (fun i x => (h i, x)) l).
Proof.
  revert h. induction l as [|x l IH]; intros h; [reflexivity|].
  rewrite !imap_cons, !filter_cons. cbn [fst snd].
  change (imap ((fun i x => g (h i) x) ∘ S) l)
    with (imap (fun i x => g ((h ∘ S) i) x) l).
  change (imap ((fun i x => (h i, x)) ∘ S) l)
    with (imap (fun i x => ((h ∘ S) i, x)) l).
  rewrite (IH (h ∘ S)).
  destruct (decide (P (g (h 0%nat) x))); reflexivity.
Qed.

Lemma kept_iff pol p catalog mode image i region :
  kept pol (snd (region_task c p catalog mode image i region)) = true
  <-> (on_degenerate pol = CountAsUnmatched
       \/ is_Some (region_fingerprint c image region)).
Proof.
  unfold region_task, kept. simpl.
  destruct (region_fingerprint c image region) as [fp|]; simpl.
  - split; [intros _; right; eauto|intros _].
    destruct (on_degenerate pol); [reflexivity|].
    destruct (query (config c mode) p fp) as [p' [[]|m]]; reflexivity.
  - destruct (on_degenerate pol); simpl.
    + split; auto.
    + split; [discriminate|].
      intros [Hc | [x Hx]]; discriminate.
Qed.

(** As many results are kept as regions are counted. *)
Lemma kept_count pol p catalog mode image :
  length (filter (fun x => kept pol x) (results_of c p catalog mode image))
  = count_regions c pol image (detect c mode image).
Proof.
  unfold results_of, count_regions.
  generalize (detect c mode image) as regions. intros regions.
  assert (Hgen : forall k,
    length (filter (fun x : RegionResult fp_len => kept pol x)
              (imap (fun i region =>
                       snd (region_task c p catalog mode image (k + i) region))
                 regions))
    = match on_degenerate pol with
      | CountAsUnmatched => length regions
      | ExcludeRegion =>
          length (filter (fun r => is_Some (region_fingerprint c image r))
                    regions)
      end).
  { induction regions as [|x regions IH]; intros k.
    - destruct (on_degenerate pol); reflexivity.
    - rewrite imap_cons, filter_cons.
      assert (Hshift : imap ((fun i region =>
                 snd (region_task c p catalog mode image (k + i) region)) ∘ S)
                regions
              = imap (fun i region =>
                 snd (region_task c p catalog mode image (S k + i) region))
                regions).
      { apply imap_ext. intros i y _. unfold compose.
        replace (k + S i)%nat with (S k + i)%nat by lia. reflexivity. }
      rewrite Hshift. specialize (IH (S k)).
      pose proof (kept_iff pol p catalog mode image (k + 0) x) as Hk.
      destruct (on_degenerate pol) eqn:Hpol.
      + rewrite decide_True by (apply Is_true_true, Hk; left; reflexivity).
        cbn [length]. rewrite IH. reflexivity.
      + rewrite filter_cons.
        destruct (decide (is_Some (region_fingerprint c image x))) as [Hs|Hs].
        * rewrite decide_True by (apply Is_true_true, Hk; right; exact Hs).
          cbn [length]. rewrite IH. reflexivity.
        * rewrite decide_False.
          -- exact IH.
          -- intros Hkept. apply Is_true_true, Hk in Hkept.
             destruct Hkept as [Hc|Hc]; [discriminate | contradiction]. }
  exact (Hgen 0%nat).
Qed.

Lemma to_card_numbering i (x : RegionResult fp_len) :
  card_number (to_card i x) = S i /\ region_index (to_card i x) = i.
Proof. destruct x; split; reflexivity. Qed.

Lemma scan_cards_length pol p catalog completion mode image r :
  (forall l, completion l ≡ₚ l) ->
  snd (scan c pol p catalog completion mode image) = Success r ->
  length (cards r) = cards_found r.
Proof.
  intros Hperm Hr. apply scan_success in Hr; [|exact Hperm].
  rewrite Hr at 1 2. cbn [cards cards_found].
  rewrite length_imap. apply kept_count.
Qed.

Lemma card_numbers_lookup pol p catalog completion mode image r i k :
  (forall l, completion l ≡ₚ l) ->
  snd (scan c pol p catalog completion mode image) = Success r ->
  cards r !! i = Some k ->
  card_number k = S i /\ region_index k = i.
Proof.
  intros Hperm Hr Hk. apply scan_success in Hr; [|exact Hperm].
  rewrite Hr in Hk. cbn [cards] in Hk.
  apply list_lookup_imap_Some in Hk as (x & _ & ->).
  apply to_card_numbering.
Qed.

(** C1: for every ScanResult the pipeline returns, the length of its cards
    sequence equals cards_found, and cards_matched, the number of cards
    with matched = true, is at most cards_found; every card's region index
    is its position, below cards_found. *)
Theorem scan_result_counts :
  forall pol p catalog completion mode image r,
    (forall l, completion l ≡ₚ l) ->
    snd (scan c pol p catalog completion mode image) = Success r ->
    length (cards r) = cards_found r
    /\ (cards_matched r <= cards_found r)%nat
    /\ cards_matched r = length (filter (fun k => matched k = true) (cards r))
    /\ cards_found r = count_regions c pol image (detect c mode image)
    /\ (forall i k, cards r !! i = Some k ->
                    region_index k = i /\ (i < cards_found r)%nat).
Proof.
  intros pol p catalog completion mode image r Hperm Hscan.
  pose proof (scan_cards_length _ _ _ _ _ _ _ Hperm Hscan) as Hlen.
  pose proof (fun i k => card_numbers_lookup _ _ _ _ _ _ _ i k Hperm Hscan)
    as Hnum.
  apply scan_success in Hscan; [|exact Hperm].
  assert (Hm : cards_matched r
               = length (filter (fun k => matched k = true) (cards r))).
  { rewrite Hscan at 1. reflexivity. }
  split; [exact Hlen|]. split; [|split; [exact Hm|split]].
  - rewrite Hm, <- Hlen. apply length_filter.
  - rewrite Hscan at 1. reflexivity.
  - intros i k Hk. split.
    + apply (Hnum i k Hk).
    + rewrite <- Hlen. eapply lookup_lt_Some. exact Hk.
Qed.

(** The process is handed back as it was received. *)
Lemma scan_process pol p catalog completion mode image :
  fst (scan c pol p catalog completion mode image) = p.
Proof.
  unfold scan. destruct (negb (valid_image c image)); [reflexivity|].
  destruct (loaded_index p), (on_unavailable pol); reflexivity.
Qed.

(** Whether a request fails does not depend on the catalog or on the
    order of completion. *)
Lemma scan_success_stable pol p catalog completion catalog' completion'
    mode image r :
  snd (scan c pol p catalog completion mode image) = Success r ->
  exists r', snd (scan c pol p catalog' completion' mode image) = Success r'.
Proof.
  unfold scan. destruct (negb (valid_image c image)); [discriminate|].
  destruct (loaded_index p), (on_unavailable pol); simpl;
    intros H; try discriminate; eexists; reflexivity.
Qed.

Lemma filter_fmap_stable {A} (P : A -> Prop) `{!forall x, Decision (P x)}
    (f : A -> A) (l : list A) :
  (forall x, P (f x) <-> P x) ->
  f <$> filter P l = filter P (f <$> l).
Proof.
  intros Hf. induction l as [|x l IH]; [reflexivity|].
  rewrite fmap_cons, !filter_cons.
  destruct (decide (P x)) as [Hx|Hx].
  - rewrite decide_True by (by apply Hf). rewrite fmap_cons, IH. reflexivity.
  - rewrite decide_False by (by rewrite Hf). exact IH.
Qed.

Lemma kept_without_enrichment pol (x : RegionResult fp_len) :
  kept pol (without_enrichment x) = kept pol x.
Proof. destruct x; reflexivity. Qed.

(** The catalog only decides the enrichment outcome of a region. *)
Lemma region_task_catalog p catalog catalog' mode image i region :
  without_enrichment (snd (region_task c p catalog mode image i region))
  = without_enrichment (snd (region_task c p catalog' mode image i region)).
Proof.
  unfold region_task. simpl.
  destruct (region_fingerprint c image region) as [fp|]; [|reflexivity].
  destruct (query (config c mode) p fp) as [p' [[]|m]]; reflexivity.
Qed.

(** A field of the cards that the enrichment outcome does not reach is the
    same whatever the catalog answers and in whatever order the tasks
    finish. *)
Lemma scan_field_stable {B} (f : EnrichedCard -> B)
    pol p catalog completion catalog' completion' mode image r r' :
  (forall i (x : RegionResult fp_len),
      f (to_card i x) = f (to_card i (without_enrichment x))) ->
  (forall l, completion l ≡ₚ l) -> (forall l, completion' l ≡ₚ l) ->
  snd (scan c pol p catalog completion mode image) = Success r ->
  snd (scan c pol p catalog' completion' mode image) = Success r' ->
  f <$> cards r = f <$> cards r'.
Proof.
  intros Hf Hperm Hperm' Hr Hr'.
  apply scan_success in Hr; [|exact Hperm].
  apply scan_success in Hr'; [|exact Hperm'].
  assert (Hnorm : forall cat,
    f <$> imap to_card (filter (fun x => kept pol x) (results_of c p cat mode image))
    = imap (fun n (x : RegionResult fp_len) => f (to_card n x))
        (filter (fun x => kept pol x)
           (imap (fun i region =>
                    without_enrichment
                      (snd (region_task c p cat mode image i region)))
              (detect c mode image)))).
  { intros cat. rewrite fmap_imap.
    rewrite (imap_ext _ (fun n (x : RegionResult fp_len) =>
                           f (to_card n (without_enrichment x))))
      by (intros; apply Hf).
    change (fun n (x : RegionResult fp_len) =>
              f (to_card n (without_enrichment x)))
      with (fun n => (fun x : RegionResult fp_len => f (to_card n x))
                     ∘ without_enrichment).
    rewrite <- (imap_fmap (fun n (x : RegionResult fp_len) =>
                             f (to_card n x)) without_enrichment).
    rewrite filter_fmap_stable
      by (intros x; rewrite kept_without_enrichment; reflexivity).
    unfold results_of. rewrite fmap_imap. reflexivity. }
  rewrite Hr, Hr'. cbn [cards]. rewrite !Hnorm.
  f_equal. f_equal. apply imap_ext. intros i x _.
  apply region_task_catalog.
Qed.

(** The cards are the kept regions' cards, in detection order. *)
Lemma cards_of_kept_regions pol p catalog completion mode image r :
  (forall l, completion l ≡ₚ l) ->
  snd (scan c pol p catalog completion mode image) = Success r ->
  cards r
  = imap (fun i jx =>
            to_card i (snd (region_task c p catalog mode image
                              (fst jx) (snd jx))))
      (kept_regions c pol p catalog mode image).
Proof.
  intros Hperm Hr. apply scan_success in Hr; [|exact Hperm].
  rewrite Hr. cbn [cards]. unfold results_of, kept_regions.
  rewrite (filter_imap (fun x => kept pol x)
             (fun i region => snd (region_task c p catalog mode image i region))
             (fun i => i)).
  rewrite imap_fmap. reflexivity.
Qed.

(** C2: in every ScanResult the card numbers are 1, 2, 3, ... in the order
    of the cards; the cards are those of the regions that were kept, taken
    in detection order (all the regions, when a region that cannot be
    identified still counts as a card); and a repeated call on the same
    image gives the same card numbering, whatever the catalog answers and
    in whatever order the regions' tasks finish. *)
Theorem card_numbers_follow_detection_order :
  forall pol p catalog completion mode image r,
    (forall l, completion l ≡ₚ l) ->
    snd (scan c pol p catalog completion mode image) = Success r ->
    (forall i k, cards r !! i = Some k -> card_number k = S i)
    /\ kept_regions c pol p catalog mode image
         `sublist_of` imap pair (detect c mode image)
    /\ (on_degenerate pol = CountAsUnmatched ->
        kept_regions c pol p catalog mode image
        = imap pair (detect c mode image))
    /\ cards r
       = imap (fun i jx =>
                 to_card i (snd (region_task c p catalog mode image
                                   (fst jx) (snd jx))))
           (kept_regions c pol p catalog mode image)
    /\ (forall catalog' completion',
          (forall l, completion' l ≡ₚ l) ->
          exists r',
            snd (scan c pol
                   (fst (scan c pol p catalog completion mode image))
                   catalog' completion' mode image) = Success r'
            /\ card_number <$> cards r' = card_number <$> cards r).
Proof.
  intros pol p catalog completion mode image r Hperm Hr.
  split; [|split; [|split; [|split]]].
  - intros i k Hk.
    apply (card_numbers_lookup _ _ _ _ _ _ _ i k Hperm Hr Hk).
  - apply sublist_filter.
  - intros Hpol. apply filter_all. intros [j region].
    apply Is_true_true, kept_iff. left. exact Hpol.
  - exact (cards_of_kept_regions _ _ _ _ _ _ _ Hperm Hr).
  - intros catalog' completion' Hperm'. rewrite scan_process.
    destruct (scan_success_stable pol p catalog completion catalog'
                completion' mode image r Hr) as [r' Hr'].
    exists r'. split; [exact Hr'|].
    apply (scan_field_stable card_number pol p catalog' completion'
             catalog completion mode image r' r); try assumption.
    intros i x. destruct x; reflexivity.
Qed.

(** Where a matched card comes from: its region was fingerprinted, an
    index was loaded, and the scan of the index found its record. *)
Lemma matched_card_origin p catalog mode image i j region :
  matched (to_card i (snd (region_task c p catalog mode image j region)))
  = true ->
  exists fp index rec d,
    region_fingerprint c image region = Some fp
    /\ loaded_index p = Some index
    /\ nearest index fp = Some (rec, d)
    /\ to_card i (snd (region_task c p catalog mode image j region))
       = to_card i
           (Resolved
              {| m_matched := true; m_record := Some rec;
                 m_confidence := confidence_of (config c mode) d;
                 m_distance := Some d |}
              (Some (catalog j (ref_identity rec)))).
Proof.
  unfold region_task. cbn [snd].
  destruct (region_fingerprint c image region) as [fp|]; [|discriminate].
  unfold query. destruct (loaded_index p) as [index|]; [|discriminate].
  cbn [snd]. unfold match_fingerprint.
  destruct (nearest index fp) as [[rec d]|] eqn:Hn; [|discriminate].
  cbn [to_card m_matched matched].
  destruct (negb (max_distance (config c mode) <? d)%nat
            && negb (confidence_of (config c mode) d
                     <? min_confidence (config c mode))); [|discriminate].
  intros _. exists fp, index, rec, d.
  split; [reflexivity|]. split; [reflexivity|]. split; [exact Hn|].
  reflexivity.
Qed.

(** A matched card of a scan is the card of a kept region whose
    fingerprint found a record. *)
Lemma scan_card_matched pol p catalog completion mode image r i k :
  (forall l, completion l ≡ₚ l) ->
  snd (scan c pol p catalog completion mode image) = Success r ->
  cards r !! i = Some k -> matched k = true ->
  exists j region (rec : ReferenceRecord fp_len) d,
    kept_regions c pol p catalog mode image !! i = Some (j, region)
    /\ k = to_card i
             (Resolved
                {| m_matched := true; m_record := Some rec;
                   m_confidence := confidence_of (config c mode) d;
                   m_distance := Some d |}
                (Some (catalog j (ref_identity rec)))).
Proof.
  intros Hperm Hr Hk Hm.
  rewrite (cards_of_kept_regions _ _ _ _ _ _ _ Hperm Hr) in Hk.
  apply list_lookup_imap_Some in Hk as ([j region] & Hjx & ->).
  cbn [fst snd] in Hm |- *.
  destruct (matched_card_origin p catalog mode image i j region Hm)
    as (fp & index & rec & d & _ & _ & _ & Hcard).
  exists j, region, rec, d. split; [exact Hjx | exact Hcard].
Qed.

Lemma card_json_fields (k : EnrichedCard) sc ra :
  matched k = true -> set_code k = Some sc -> rarity k = Some ra ->
  exists props,
    card_to_json k = JS.JObj props
    /\ JS.lookup_prop "matched" props = JS.JBool true
    /\ JS.lookup_prop "set_code" props = JS.JStr sc
    /\ JS.lookup_prop "rarity" props = JS.JStr ra
    /\ (prices k = None -> JS.lookup_prop "prices" props = JS.JUndefined).
Proof.
  intros Hm Hs Hr. unfold card_to_json. eexists. split; [reflexivity|].
  rewrite Hm, Hs, Hr.
  destruct (name k), (set_name k), (image_url k), (catalog_id k);
    cbn; repeat split; intros ->; reflexivity.
Qed.

(** The static fields of a card in the response, and no prices. *)
Lemma card_json_static (k : EnrichedCard) na se ra :
  name k = Some na -> set_name k = Some se -> rarity k = Some ra ->
  prices k = None ->
  exists props,
    card_to_json k = JS.JObj props
    /\ JS.lookup_prop "name" props = JS.JStr na
    /\ JS.lookup_prop "set" props = JS.JStr se
    /\ JS.lookup_prop "rarity" props = JS.JStr ra
    /\ JS.lookup_prop "prices" props = JS.JUndefined.
Proof.
  intros Hn Hs Hr Hp. unfold card_to_json. eexists. split; [reflexivity|].
  rewrite Hn, Hs, Hr, Hp.
  destruct (set_code k), (image_url k), (catalog_id k);
    cbn; repeat split; reflexivity.
Qed.


(** Every card of a scan, matched or not, is rendered by the client. *)
Lemma scan_card_renders pol p catalog completion mode image r i k
    selectedCards :
  (forall l, completion l ≡ₚ l) ->
  snd (scan c pol p catalog completion mode image) = Success r ->
  cards r !! i = Some k ->
  exists out,
    ScanResultsScreen.renderCard selectedCards (card_to_json k)
    = JS.Returns out.
Proof.
  intros Hperm Hr Hk. destruct (matched k) eqn:Hm.
  - destruct (scan_card_matched _ _ _ _ _ _ _ _ _ Hperm Hr Hk Hm)
      as (j & region & rec & d & _ & ->).
    set (e := catalog j (ref_identity rec)).
    set (card := to_card i _).
    destruct (card_json_fields card (ref_set_code rec)
                (default (ref_rarity rec) (live (Some e) ≫= live_rarity))
                eq_refl eq_refl eq_refl)
      as (props & -> & Hpm & Hps & Hpr & _).
    eapply renderCard_matched_returns.
    + rewrite Hpm. reflexivity.
    + exact Hps.
    + right. eexists. exact Hpr.
  - unfold card_to_json. apply renderCard_unmatched_returns.
    rewrite Hm. reflexivity.
Qed.

(** The result screen shows a scan as it counts it: the summary names
    cards_found and cards_matched, and the list has one element per card,
    keyed 1, 2, 3, ... by the card numbers. *)
Lemma scan_result_renders pol p catalog completion mode image r
    selectedCards :
  (forall l, completion l ≡ₚ l) ->
  snd (scan c pol p catalog completion mode image) = Success r ->
  exists summary rendered,
    ScanResultsScreen.render_summary (result_to_json r) = JS.Returns summary
    /\ ScanResultsScreen.render_cards selectedCards (result_to_json r)
       = JS.Returns rendered
    /\ length rendered = cards_found r
    /\ fst <$> rendered
       = (fun i => JS.JNum (Z.of_nat (S i))) <$> seq 0 (cards_found r).
Proof.
  intros Hperm Hr.
  pose proof (scan_cards_length _ _ _ _ _ _ _ Hperm Hr) as Hlen.
  eexists.
  assert (Hcards : Forall (fun k =>
            JS.get (card_to_json k) "card_number"
            = JS.Returns (JS.JNum (Z.of_nat (card_number k)))
            /\ exists out,
                 ScanResultsScreen.renderCard selectedCards (card_to_json k)
                 = JS.Returns out) (cards r)).
  { apply Forall_lookup. intros i k Hk. split; [reflexivity|].
    eapply scan_card_renders; eassumption. }
  destruct (render_all_keys selectedCards (card_to_json <$> cards r)
              ((fun k => JS.JNum (Z.of_nat (card_number k))) <$> cards r))
    as (rendered & Hrendered & Hkeys).
  { apply Forall2_fmap, Forall_Forall2_diag. exact Hcards. }
  exists rendered. split; [reflexivity|]. split; [exact Hrendered|].
  assert (Hnum : (fun k => JS.JNum (Z.of_nat (card_number k))) <$> cards r
                 = (fun i => JS.JNum (Z.of_nat (S i)))
                     <$> seq 0 (cards_found r)).
  { rewrite <- Hlen. apply list_eq. intros i.
    rewrite !list_lookup_fmap.
    destruct (cards r !! i) as [k|] eqn:Hk; simpl.
    - rewrite lookup_seq_lt by (eapply lookup_lt_Some; exact Hk). simpl.
      destruct (card_numbers_lookup pol p catalog completion mode image r
                  i k Hperm Hr Hk) as [-> _]. reflexivity.
    - rewrite lookup_seq_ge by (apply lookup_ge_None; exact Hk).
      reflexivity. }
  split.
  - rewrite <- (length_fmap fst), Hkeys, Hnum, length_fmap, length_seq.
    reflexivity.
  - rewrite Hkeys. exact Hnum.
Qed.

End OrchestratorFacts.

(** The sample scan: three regions found, three cards. *)
Lemma scan_result_counts_witness :
  exists r,
    snd Examples.sample_scan = Pipeline.Success r
    /\ length (Pipeline.cards r) = Pipeline.cards_found r
    /\ Pipeline.cards_found r = 3%nat.
Proof.
  eexists. split; [vm_compute; reflexivity|]. split; [|reflexivity].
  refine (proj1 (scan_result_counts Examples.sample_components
                   Examples.sample_policy Examples.sample_process
                   Examples.catalog_down reverse Pipeline.Default
                   Examples.sample_image _ _ _)).
  - intros l. apply reverse_Permutation.
  - vm_compute. reflexivity.
Defined.

(** The sample scan, its tasks finishing in reverse order, numbers its
    cards 1, 2, 3. *)
Lemma card_numbers_follow_detection_order_witness :
  exists r,
    snd Examples.sample_scan = Pipeline.Success r
    /\ forall i k,
         Pipeline.cards r !! i = Some k -> Pipeline.card_number k = S i.
Proof.
  eexists. split; [vm_compute; reflexivity|].
  refine (proj1 (card_numbers_follow_detection_order
                   Examples.sample_components Examples.sample_policy
                   Examples.sample_process Examples.catalog_down reverse
                   Pipeline.Default Examples.sample_image _ _ _)).
  - intros l. apply reverse_Permutation.
  - vm_compute. reflexivity.
Defined.




(** * More of the client *)

(** ** services/api.js: how errors surface *)

Section ApiErrors.
Import JS Api.

Lemma includes_cons c t needle :
  includes (String c t) needle
  = String.prefix needle (String c t) || includes t needle.
Proof. reflexivity. Qed.

(** A needle whose first character is not in the hay is not in it. *)
Lemma includes_absent_head c needle s :
  occurs c s = false -> includes s (String c needle) = false.
Proof.
  induction s as [|x t IH]; intros Hs.
  - reflexivity.
  - simpl in Hs. apply orb_false_iff in Hs as [Hx Ht].
    rewrite includes_cons, (IH Ht), orb_false_r. simpl.
    destruct (ascii_dec c x) as [->|Hne]; [|reflexivity].
    rewrite Ascii.eqb_refl in Hx. discriminate.
Qed.

Lemma occurs_uint c d :
  occurs c (NilEmpty.string_of_uint d) = true -> occurs c "0123456789" = true.
Proof.
  induction d; cbn [NilEmpty.string_of_uint occurs]; intros H;
    try discriminate;
    apply orb_true_iff in H as [H|H];
    try (apply Ascii.eqb_eq in H; subst c; reflexivity);
    apply IHd in H; exact H.
Qed.

(** A number in decimal is made of digits and at most a minus sign. *)
Lemma occurs_Z_to_string c n :
  occurs c (Z_to_string n) = true -> occurs c "-0123456789" = true.
Proof.
  assert (Hu : forall d, occurs c (NilZero.string_of_uint d) = true ->
                         occurs c "0123456789" = true).
  { intros d. unfold NilZero.string_of_uint.
    destruct d; try apply occurs_uint.
    cbn [occurs]. intros H. apply orb_true_iff in H as [H|H]; [|discriminate].
    apply Ascii.eqb_eq in H. subst c. reflexivity. }
  unfold Z_to_string, NilZero.string_of_int.
  destruct (Z.to_int n) as [d|d]; cbn [occurs]; intros H.
  - apply Hu in H. change (Ascii.eqb "-" c || occurs c "0123456789" = true).
    rewrite H. apply orb_true_r.
  - change (Ascii.eqb "-" c || occurs c "0123456789" = true).
    apply orb_true_iff in H as [H|H]; [rewrite H; reflexivity|].
    apply Hu in H. rewrite H. apply orb_true_r.
Qed.

(** The [catch] block leaves the status message alone: no status code
    spells a network failure or a timeout. *)
Lemma status_message_kept n :
  scanCards_catch (Error ("API request failed: " +:+ Z_to_string n))
  = Throws (Error ("API request failed: " +:+ Z_to_string n)).
Proof.
  assert (Ht : occurs "t" (Z_to_string n) = false).
  { destruct (occurs "t" (Z_to_string n)) eqn:H; [|reflexivity].
    apply occurs_Z_to_string in H. discriminate. }
  assert (HN : occurs "N" (Z_to_string n) = false).
  { destruct (occurs "N" (Z_to_string n)) eqn:H; [|reflexivity].
    apply occurs_Z_to_string in H. discriminate. }
  unfold scanCards_catch. cbn [message].
  generalize dependent (Z_to_string n). intros s Ht HN.
  assert (H1 : includes ("API request failed: " +:+ s)
                 "Network request failed" = false).
  { cbn. apply (includes_absent_head "N" "etwork request failed" s HN). }
  assert (H2 : includes ("API request failed: " +:+ s) "timeout" = false).
  { cbn. apply (includes_absent_head "t" "imeout" s Ht). }
  rewrite H1, H2. reflexivity.
Qed.

(** A response that is not ok, once its text is read, ends the [try]
    block with the status message. *)
Lemma scanCards_try_not_ok (fetch : Fetch) imageUri scanMode r errorText :
  fetch (scan_request imageUri scanMode) = Returns r ->
  ok r = false ->
  text r = Returns errorText ->
  scanCards_try fetch imageUri scanMode
  = Throws (Error ("API request failed: " +:+ Z_to_string (status r))).
Proof.
  intros Hr Hok Htext. unfold scanCards_try, mbind, outcome_bind.
  rewrite Hr. cbn [bind]. rewrite Hok. cbn [negb]. rewrite Htext.
  reflexivity.
Qed.

(** Whatever [scanCards] returns has a truthy [success]. *)
Lemma scanCards_returns_success (fetch : Fetch) imageUri scanMode data :
  scanCards fetch imageUri scanMode = Returns data ->
  exists r sv,
    fetch (scan_request imageUri scanMode) = Returns r /\ ok r = true
    /\ json r = Returns data
    /\ get data "success" = Returns sv /\ truthy sv = true.
Proof.
  intros Hdata. apply scanCards_returns_try in Hdata.
  pose proof (scanCards_try_cases fetch imageUri scanMode) as Hc.
  destruct (fetch (scan_request imageUri scanMode)) as [r|e];
    [|rewrite Hc in Hdata; discriminate].
  destruct (ok r) eqn:Hok;
    [|destruct Hc as [e He]; rewrite He in Hdata; discriminate].
  destruct (json r) as [d|e] eqn:Hjson;
    [|rewrite Hc in Hdata; discriminate].
  destruct (get d "success") as [sv|e] eqn:Hsv;
    [|rewrite Hc in Hdata; discriminate].
  destruct (truthy sv) eqn:Ht;
    [|destruct Hc as [e He]; rewrite He in Hdata; discriminate].
  rewrite Hc in Hdata. injection Hdata as <-.
  exists r, sv. repeat split; assumption.
Qed.

(** X1: when the backend answers a scan with a status that is not ok (and
    the body can be read as text), [scanCards] raises exactly
    "API request failed: " followed by the status code: the [catch] block
    never mistakes a status code for a network failure or a timeout. *)
Theorem scanCards_status_error :
  forall (fetch : Fetch) (imageUri : string) (scanMode : option string)
         (r : Response) (errorText : string),
    fetch (scan_request imageUri scanMode) = Returns r ->
    ok r = false ->
    text r = Returns errorText ->
    scanCards fetch imageUri scanMode
    = Throws (Error ("API request failed: " +:+ Z_to_string (status r))).
Proof.
  intros fetch imageUri scanMode r errorText Hr Hok Htext.
  unfold scanCards.
  rewrite (scanCards_try_not_ok fetch imageUri scanMode r errorText
             Hr Hok Htext).
  apply status_message_kept.
Qed.

(** An answer 503 to a scan. *)
Lemma scanCards_status_error_witness :
  scanCards (fun _ => Returns {| ok := false; status := 503;
                                 text := Returns "Service Unavailable";
                                 json := Throws (Error "not JSON") |})
    "file:///tmp/cards.jpg" None
  = Throws (Error "API request failed: 503").
Proof.
  exact (scanCards_status_error _ "file:///tmp/cards.jpg" None
           {| ok := false; status := 503;
              text := Returns "Service Unavailable";
              json := Throws (Error "not JSON") |}
           "Service Unavailable" eq_refl eq_refl eq_refl).
Defined.

(** X2: [scanCards] never lets the raw message of a failed network request
    through: no error it raises has a message that contains
    "Network request failed"; when [fetch] rejects with such a message the
    error raised is the one that tells to check the API URL. *)
Theorem scanCards_hides_raw_network_error :
  forall (fetch : Fetch) (imageUri : string) (scanMode : option string)
         (e : JSError),
    scanCards fetch imageUri scanMode = Throws e ->
    includes (message e) "Network request failed" = false
    /\ (forall e0,
          fetch (scan_request imageUri scanMode) = Throws e0 ->
          includes (message e0) "Network request failed" = true ->
          e = Error
                "Network error - cannot connect to backend. Check your API URL.").
Proof.
  intros fetch imageUri scanMode e. unfold scanCards.
  destruct (scanCards_try fetch imageUri scanMode) as [data|e1] eqn:Htry;
    cbn [try_catch]; [discriminate|].
  intros Hcatch. split.
  - unfold scanCards_catch in Hcatch.
    destruct (includes (message e1) "Network request failed") eqn:Hn.
    + injection Hcatch as <-. vm_compute. reflexivity.
    + destruct (includes (message e1) "timeout").
      * injection Hcatch as <-. vm_compute. reflexivity.
      * injection Hcatch as <-. exact Hn.
  - intros e0 He0 Hmsg.
    unfold scanCards_try, mbind, outcome_bind in Htry.
    rewrite He0 in Htry. cbn [bind] in Htry. injection Htry as <-.
    unfold scanCards_catch in Hcatch. rewrite Hmsg in Hcatch.
    injection Hcatch as <-. reflexivity.
Qed.

(** The connection is down. *)
Lemma scanCards_hides_raw_network_error_witness :
  includes "Network error - cannot connect to backend. Check your API URL."
    "Network request failed" = false.
Proof.
  exact (proj1 (scanCards_hides_raw_network_error Examples.network_down
                  "file:///tmp/cards.jpg" None
                  (Error
                     "Network error - cannot connect to backend. Check your API URL.")
                  eq_refl)).
Defined.

(** What a call that only fetches and parses does with each answer. *)
Lemma fetch_json_cases (fetch : Fetch) (req : Request) (prefix : string)
    (out : Outcome JSValue) :
  out = try_catch
          (response ← fetch req;
           if negb (ok response) then
             Throws (Error (prefix +:+ Z_to_string (status response)))
           else data ← json response; Returns data)
          (fun error => Throws error) ->
  out = match fetch req with
        | Throws e => Throws e
        | Returns r =>
            if ok r then json r
            else Throws (Error (prefix +:+ Z_to_string (status r)))
        end.
Proof.
  intros ->. unfold mbind, outcome_bind.
  destruct (fetch req) as [r|e]; cbn [bind try_catch]; [|reflexivity].
  destruct (ok r); cbn [negb bind try_catch]; [|reflexivity].
  destruct (json r); reflexivity.
Qed.

(** X3: [identifySingleCard], [checkHealth] and [getDatabaseStats] never
    look into the body: each returns the parsed body of an ok response as
    it is, raises its own status message for a response that is not ok,
    and passes on unchanged whatever [fetch] or [json()] rejected with.
    So every body that [scanCards] accepts, [identifySingleCard] accepts
    too, while a body with [success] false is returned, not raised. *)
Theorem plain_calls_return_body_unchanged :
  forall (fetch : Fetch) (imageUri : string),
    identifySingleCard fetch imageUri
    = match fetch (identify_request imageUri) with
      | Throws e => Throws e
      | Returns r =>
          if ok r then json r
          else Throws (Error ("API request failed: "
                              +:+ Z_to_string (status r)))
      end
    /\ checkHealth fetch
       = match fetch health_request with
         | Throws e => Throws e
         | Returns r =>
             if ok r then json r
             else Throws (Error ("Health check failed: "
                                 +:+ Z_to_string (status r)))
         end
    /\ getDatabaseStats fetch
       = match fetch stats_request with
         | Throws e => Throws e
         | Returns r =>
             if ok r then json r
             else Throws (Error ("Stats request failed: "
                                 +:+ Z_to_string (status r)))
         end
    /\ (forall scanMode r data,
          fetch (scan_request imageUri scanMode) = Returns r ->
          fetch (identify_request imageUri) = Returns r ->
          scanCards fetch imageUri scanMode = Returns data ->
          identifySingleCard fetch imageUri = Returns data)
    /\ (forall r props,
          fetch (identify_request imageUri) = Returns r ->
          ok r = true ->
          json r = Returns (JObj (("success", JBool false) :: props)) ->
          identifySingleCard fetch imageUri
          = Returns (JObj (("success", JBool false) :: props))).
Proof.
  intros fetch imageUri.
  assert (Hid : identifySingleCard fetch imageUri
                = match fetch (identify_request imageUri) with
                  | Throws e => Throws e
                  | Returns r =>
                      if ok r then json r
                      else Throws (Error ("API request failed: "
                                          +:+ Z_to_string (status r)))
                  end).
  { apply (fetch_json_cases fetch (identify_request imageUri)
             "API request failed: "). reflexivity. }
  split; [exact Hid|]. split; [|split; [|split]].
  - apply (fetch_json_cases fetch health_request "Health check failed: ").
    reflexivity.
  - apply (fetch_json_cases fetch stats_request "Stats request failed: ").
    reflexivity.
  - intros scanMode r data Hscan Hident Hdata.
    apply scanCards_returns_try in Hdata.
    pose proof (scanCards_try_cases fetch imageUri scanMode) as Hc.
    rewrite Hscan in Hc. rewrite Hid, Hident.
    destruct (ok r).
    + destruct (json r) as [d|e]; [|rewrite Hc in Hdata; discriminate].
      destruct (get d "success") as [sv|e];
        [|rewrite Hc in Hdata; discriminate].
      destruct (truthy sv).
      * rewrite Hc in Hdata. exact Hdata.
      * destruct Hc as [e He]. rewrite He in Hdata. discriminate.
    + destruct Hc as [e He]. rewrite He in Hdata. discriminate.
  - intros r props Hident Hok Hjson. rewrite Hid, Hident, Hok. exact Hjson.
Qed.

End ApiErrors.

(** ** services/api.js: the form data *)

Section FormData.
Import JS Api.

(** The last segment is what follows the last separator. *)
Lemma last_split_app sep d name :
  occurs sep name = false ->
  last (split sep (d +:+ String sep name)) = Some name.
Proof.
  intros H. rewrite split_app, (split_no_sep sep name H).
  apply last_snoc.
Qed.

(** Every string is free of the separator or has a last separator. *)
Lemma last_separator sep s :
  occurs sep s = false
  \/ exists d f, s = d +:+ String sep f /\ occurs sep f = false.
Proof.
  induction s as [|c t IH]; [left; reflexivity|].
  destruct IH as [Ht|(d & f & -> & Hf)].
  - destruct (Ascii.eqb c sep) eqn:Hc.
    + right. exists EmptyString, t. apply Ascii.eqb_eq in Hc. subst c.
      split; [reflexivity|exact Ht].
    + left. cbn [occurs]. rewrite Hc, Ht. reflexivity.
  - right. exists (String c d), f. split; [reflexivity|exact Hf].
Qed.

Lemma all_word_occurs c s :
  all_word s = true -> is_word c = false -> occurs c s = false.
Proof.
  induction s as [|x t IH]; cbn [all_word occurs]; intros Hs Hc;
    [reflexivity|].
  apply andb_true_iff in Hs as [Hx Ht]. rewrite (IH Ht Hc), orb_false_r.
  destruct (Ascii.eqb x c) eqn:E; [|reflexivity].
  apply Ascii.eqb_eq in E. subst x. congruence.
Qed.

(** A string with a dot in it is not made of word characters. *)
Lemma all_word_dot a b : all_word (a +:+ String "." b) = false.
Proof.
  induction a as [|x a IH]; rewrite ?append_nil, ?append_cons;
    cbn [all_word].
  - reflexivity.
  - rewrite IH. apply andb_false_r.
Qed.

(** What the regular expression captures is a non-empty run of word
    characters that ends the string, after a dot. *)
Lemma exec_extension_sound s ext :
  exec_extension s = Some ext ->
  ext <> EmptyString /\ all_word ext = true
  /\ exists pre, s = pre +:+ String "." ext.
Proof.
  induction s as [|c t IH]; cbn [exec_extension]; [discriminate|].
  destruct (Ascii.eqb c "." && negb (String.eqb t EmptyString) && all_word t)
    eqn:E.
  - intros [= <-]. apply andb_true_iff in E as [E Hw].
    apply andb_true_iff in E as [Hc Hne]. apply Ascii.eqb_eq in Hc. subst c.
    split; [|split; [exact Hw|exists EmptyString; reflexivity]].
    intros ->. discriminate.
  - intros H. destruct (IH H) as (Hne & Hw & pre & ->).
    split; [exact Hne|]. split; [exact Hw|].
    exists (String c pre). reflexivity.
Qed.

(** The extension after the last dot is captured. *)
Lemma exec_extension_complete base ext :
  ext <> EmptyString -> all_word ext = true ->
  exec_extension (base +:+ String "." ext) = Some ext.
Proof.
  intros Hne Hw. induction base as [|c base IH];
    rewrite ?append_nil, ?append_cons; cbn [exec_extension].
  - rewrite Hw. destruct ext; [contradiction|reflexivity].
  - rewrite all_word_dot, andb_false_r. exact IH.
Qed.

(** The form data of a URI whose last segment is [name]. *)
Lemma scan_form_last imageUri name :
  last (split "/" imageUri) = Some name ->
  scan_form imageUri
  = [("file", {| part_uri := imageUri;
                 part_name := if String.eqb name EmptyString
                              then "photo.jpg" else name;
                 part_type := match exec_extension name with
                              | Some ext => "image/" +:+ ext
                              | None => "image/jpeg"
                              end |})].
Proof. intros H. unfold scan_form. rewrite H. reflexivity. Qed.

(** X4: the form data is always one part called "file" that carries the
    URI; its name is never empty and has no slash in it. Either the URI is
    empty or ends with a slash, and then the name is "photo.jpg" and the
    type "image/jpeg"; or the name is what follows the last slash of the
    URI (the whole URI when it has none), and the type is "image/jpeg"
    when the regular expression finds no extension, and otherwise "image/"
    followed by the non-empty run of word characters that ends the name
    after a dot. *)
Theorem scan_form_shape :
  forall imageUri : string,
  exists name type : string,
    scan_form imageUri
    = [("file", {| part_uri := imageUri; part_name := name;
                   part_type := type |})]
    /\ name <> EmptyString
    /\ occurs "/" name = false
    /\ (((imageUri = EmptyString \/ exists d, imageUri = d +:+ "/")
         /\ name = "photo.jpg" /\ type = "image/jpeg")
        \/ ((imageUri = name \/ exists d, imageUri = d +:+ String "/" name)
            /\ ((exec_extension name = None /\ type = "image/jpeg")
                \/ exists pre ext,
                     name = pre +:+ String "." ext
                     /\ ext <> EmptyString /\ all_word ext = true
                     /\ type = "image/" +:+ ext))).
Proof.
  intros imageUri.
  assert (Hlast : exists f, last (split "/" imageUri) = Some f
                            /\ occurs "/" f = false
                            /\ (imageUri = f
                                \/ exists d, imageUri = d +:+ String "/" f)).
  { destruct (last_separator "/" imageUri) as [Hs|(d & f & -> & Hf)].
    - exists imageUri. rewrite (split_no_sep "/" imageUri Hs).
      split; [reflexivity|]. split; [exact Hs|left; reflexivity].
    - exists f. rewrite (last_split_app "/" d f Hf).
      split; [reflexivity|]. split; [exact Hf|right; exists d; reflexivity]. }
  destruct Hlast as (f & Hl & Hf & Hwhere).
  rewrite (scan_form_last imageUri f Hl).
  destruct f as [|c f].
  - exists "photo.jpg", "image/jpeg". split; [reflexivity|].
    split; [discriminate|]. split; [reflexivity|]. left.
    split; [|split; reflexivity].
    destruct Hwhere as [->|[d ->]]; [left; reflexivity|right; exists d;
                                                        reflexivity].
  - exists (String c f).
    destruct (exec_extension (String c f)) as [ext|] eqn:He.
    + exists ("image/" +:+ ext). split; [reflexivity|].
      split; [discriminate|]. split; [exact Hf|]. right.
      split; [exact Hwhere|]. right.
      destruct (exec_extension_sound _ _ He) as (Hne & Hw & pre & Hpre).
      exists pre, ext. rewrite Hpre. repeat split; assumption.
    + exists "image/jpeg". split; [reflexivity|].
      split; [discriminate|]. split; [exact Hf|]. right.
      split; [exact Hwhere|]. left. split; reflexivity.
Qed.

(** X5: for a URI that ends, after a slash, with a file name made of a
    base without a slash, a dot, and an extension of one or more word
    characters, the part is named by that file name and typed by that
    extension, whatever comes before the slash. *)
Theorem scan_form_of_path :
  forall dir base ext : string,
    occurs "/" base = false ->
    ext <> EmptyString ->
    all_word ext = true ->
    scan_form (dir +:+ String "/" (base +:+ String "." ext))
    = [("file", {| part_uri := dir +:+ String "/" (base +:+ String "." ext);
                   part_name := base +:+ String "." ext;
                   part_type := "image/" +:+ ext |})].
Proof.
  intros dir base ext Hbase Hne Hw.
  assert (Hname : occurs "/" (base +:+ String "." ext) = false).
  { rewrite occurs_app, Hbase. cbn [occurs orb].
    rewrite (all_word_occurs "/" ext Hw eq_refl). reflexivity. }
  rewrite (scan_form_last _ _ (last_split_app "/" dir _ Hname)).
  rewrite (exec_extension_complete base ext Hne Hw).
  destruct base; reflexivity.
Qed.

(** A picture in the cache of the camera. *)
Lemma scan_form_of_path_witness :
  scan_form "file:///var/cache/Camera/8d1f.png"
  = [("file", {| part_uri := "file:///var/cache/Camera/8d1f.png";
                 part_name := "8d1f.png";
                 part_type := "image/png" |})].
Proof.
  refine (scan_form_of_path "file:///var/cache/Camera" "8d1f" "png"
            eq_refl _ eq_refl).
  discriminate.
Defined.

End FormData.

(** ** CameraScreen: what a capture ends with *)

Section CameraMore.
Import JS Api CameraScreen.

(** The status message is none of the messages the screen looks for. *)
Lemma status_message_generic n :
  errorMessage (Error ("API request failed: " +:+ Z_to_string n))
  = "Failed to scan cards. Please try again.".
Proof.
  assert (Hn : occurs "n" (Z_to_string n) = false).
  { destruct (occurs "n" (Z_to_string n)) eqn:H; [|reflexivity].
    apply occurs_Z_to_string in H. discriminate. }
  assert (HN : occurs "N" (Z_to_string n) = false).
  { destruct (occurs "N" (Z_to_string n)) eqn:H; [|reflexivity].
    apply occurs_Z_to_string in H. discriminate. }
  unfold errorMessage. cbn [message].
  generalize dependent (Z_to_string n). intros s Hn HN.
  assert (H1 : includes ("API request failed: " +:+ s) "network" = false).
  { cbn. apply (includes_absent_head "n" "etwork" s Hn). }
  assert (H2 : includes ("API request failed: " +:+ s) "No cards detected"
               = false).
  { cbn. apply (includes_absent_head "N" "o cards detected" s HN). }
  rewrite H1, H2. reflexivity.
Qed.

(** The effect of [processImage] depends on the state only through the
    mode. *)
Lemma processImage_effect_mode (fetch : Fetch) (s s' : State) imageUri :
  scanMode s = scanMode s' ->
  fst (processImage fetch s imageUri) = fst (processImage fetch s' imageUri).
Proof. intros H. unfold processImage. rewrite H. reflexivity. Qed.

(** X6: [processImage] always ends with [isProcessing] cleared and the
    mode as it was, and with exactly one of two effects: it navigates to
    the results screen, and then with the body, parsed from an ok
    response, whose [success] is truthy; or [scanCards] raised and it
    shows one "Scan Failed" alert with one of its three texts. *)
Theorem processImage_outcome :
  forall (fetch : Fetch) (s : State) (imageUri : string),
    isProcessing (snd (processImage fetch s imageUri)) = false
    /\ scanMode (snd (processImage fetch s imageUri)) = scanMode s
    /\ ((exists r data sv,
           fetch (scan_request imageUri (Some (scanMode s))) = Returns r
           /\ ok r = true /\ json r = Returns data
           /\ get data "success" = Returns sv /\ truthy sv = true
           /\ fst (processImage fetch s imageUri)
              = Navigate "ScanResults" data)
        \/ (raises (scanCards fetch imageUri (Some (scanMode s)))
            /\ exists text,
                 fst (processImage fetch s imageUri)
                 = Alert "Scan Failed" text
                 /\ (text
                     = "Network error. Please check your connection and backend URL."
                     \/ text
                        = "No cards detected in image. Please ensure cards are clearly visible."
                     \/ text = "Failed to scan cards. Please try again."))).
Proof.
  intros fetch s imageUri. split; [reflexivity|]. split; [reflexivity|].
  unfold processImage, processImage_settle. cbn [fst].
  destruct (scanCards fetch imageUri (Some (scanMode s))) as [data|e] eqn:Hs.
  - left. destruct (scanCards_returns_success _ _ _ _ Hs)
      as (r & sv & Hr & Hok & Hjson & Hsv & Ht).
    exists r, data, sv. repeat split; assumption.
  - right. split; [exists e; reflexivity|].
    exists (errorMessage e). split; [reflexivity|].
    unfold errorMessage. destruct (includes (message e) "network"); [auto|].
    destruct (includes (message e) "No cards detected"); auto.
Qed.

(** X7: a scan that fails in transport always ends with the generic text
    "Failed to scan cards. Please try again.": when [fetch] rejects with a
    message that contains "Network request failed" or "timeout", the
    message [scanCards] puts in its place contains neither "network" in
    lower case nor "No cards detected"; and neither does the status
    message of a response that is not ok.  The screen's own
    "Network error" text is not shown for them. *)
Theorem processImage_transport_failure_alert :
  forall (fetch : Fetch) (s : State) (imageUri : string),
    (exists e,
        fetch (scan_request imageUri (Some (scanMode s))) = Throws e
        /\ (includes (message e) "Network request failed" = true
            \/ includes (message e) "timeout" = true))
    \/ (exists r errorText,
          fetch (scan_request imageUri (Some (scanMode s))) = Returns r
          /\ ok r = false /\ text r = Returns errorText) ->
    fst (processImage fetch s imageUri)
    = Alert "Scan Failed" "Failed to scan cards. Please try again.".
Proof.
  intros fetch s imageUri [(e & He & Hmsg)|(r & errorText & Hr & Hok & Htext)];
    unfold processImage, processImage_settle, scanCards; cbn [fst].
  - unfold scanCards_try, mbind, outcome_bind. rewrite He.
    cbn [bind try_catch]. unfold scanCards_catch.
    destruct (includes (message e) "Network request failed") eqn:Hn;
      [reflexivity|].
    destruct Hmsg as [Hmsg|Hmsg]; [discriminate|]. rewrite Hmsg. reflexivity.
  - rewrite (scanCards_try_not_ok fetch imageUri _ r errorText Hr Hok Htext).
    cbn [try_catch]. rewrite status_message_kept.
    rewrite status_message_generic. reflexivity.
Qed.

(** X8: the handlers never change the mode and show at most one effect.
    [takePicture] does nothing without a camera, and with one it always
    ends with [isProcessing] cleared, whether the photo could be taken or
    not.  [pickImage] does nothing for a canceled pick and only alerts
    when the picker rejects; it ends with [isProcessing] cleared when an
    asset was picked, and leaves it set when a pick that was not canceled
    has no asset to read. *)
Theorem capture_state_after :
  forall (fetch : Fetch) (s : State),
    (forall camera,
        scanMode (snd (takePicture fetch camera s)) = scanMode s
        /\ match camera with
           | None => takePicture fetch camera s = ([], s)
           | Some shot =>
               isProcessing (snd (takePicture fetch camera s)) = false
               /\ length (fst (takePicture fetch camera s)) = 1%nat
           end)
    /\ (forall picker,
          scanMode (snd (pickImage fetch picker s)) = scanMode s
          /\ match picker with
             | Throws error =>
                 pickImage fetch picker s
                 = ([Alert "Error" "Failed to pick image. Please try again."],
                    s)
             | Returns result =>
                 if canceled result then pickImage fetch picker s = ([], s)
                 else
                   length (fst (pickImage fetch picker s)) = 1%nat
                   /\ isProcessing (snd (pickImage fetch picker s))
                      = match assets result with
                        | [] => true
                        | _ :: _ => false
                        end
             end).
Proof.
  intros fetch s. split.
  - intros [[uri|error]|]; cbn; auto.
  - intros [result|error]; cbn; [|auto].
    unfold pickImage. destruct (canceled result); cbn; [auto|].
    destruct (assets result); cbn; auto.
Qed.

(** X9: a capture navigates only to the results screen, and only with
    what [scanCards] returned for the image it was given, in the mode the
    screen is in: the URI of the photo taken, or of the first asset
    picked.  So what the results screen receives always has a truthy
    [success]. *)
Theorem capture_navigates_only_with_results :
  forall (fetch : Fetch) (s : State) (screen : string) (results : JSValue),
    (forall camera,
        In (Navigate screen results) (fst (takePicture fetch camera s)) ->
        screen = "ScanResults"
        /\ (exists uri,
              camera = Some (Returns uri)
              /\ scanCards fetch uri (Some (scanMode s)) = Returns results)
        /\ exists sv, get results "success" = Returns sv /\ truthy sv = true)
    /\ (forall picker,
          In (Navigate screen results) (fst (pickImage fetch picker s)) ->
          screen = "ScanResults"
          /\ (exists result uri rest,
                picker = Returns result /\ canceled result = false
                /\ assets result = uri :: rest
                /\ scanCards fetch uri (Some (scanMode s)) = Returns results)
          /\ exists sv, get results "success" = Returns sv /\ truthy sv = true).
Proof.
  intros fetch s screen results.
  assert (Hnav : forall s0 uri,
             scanMode s0 = scanMode s ->
             In (Navigate screen results) [fst (processImage fetch s0 uri)] ->
             screen = "ScanResults"
             /\ scanCards fetch uri (Some (scanMode s)) = Returns results
             /\ exists sv, get results "success" = Returns sv
                           /\ truthy sv = true).
  { intros s0 uri Hmode [Hin|[]]. unfold processImage, processImage_settle in Hin.
    cbn [fst] in Hin. rewrite Hmode in Hin.
    destruct (scanCards fetch uri (Some (scanMode s))) as [data|e] eqn:Hs;
      [|discriminate].
    injection Hin as <- <-. split; [reflexivity|]. split; [reflexivity|].
    destruct (scanCards_returns_success _ _ _ _ Hs)
      as (r & sv & _ & _ & _ & Hsv & Ht).
    exists sv. split; assumption. }
  split.
  - intros [[uri|error]|]; cbn [takePicture fst].
    + intros Hin. apply Hnav in Hin as (Hscreen & Hs & Hsv); [|reflexivity].
      split; [exact Hscreen|]. split; [|exact Hsv].
      exists uri. split; [reflexivity|exact Hs].
    + intros [Hin|[]]. discriminate.
    + intros [].
  - intros [result|error]; unfold pickImage.
    + destruct (canceled result) eqn:Hc; cbn [negb fst]; [intros []|].
      destruct (assets result) as [|uri rest] eqn:Ha; cbn [fst].
      * intros [Hin|[]]. discriminate.
      * intros Hin. apply Hnav in Hin as (Hscreen & Hs & Hsv); [|reflexivity].
        split; [exact Hscreen|]. split; [|exact Hsv].
        exists result, uri, rest. repeat split; assumption.
    + cbn [fst]. intros [Hin|[]]. discriminate.
Qed.

End CameraMore.

(** The connection is down while a picture is scanned. *)
Lemma processImage_transport_failure_alert_witness :
  fst (CameraScreen.processImage Examples.network_down CameraScreen.initial
         "file:///tmp/cards.jpg")
  = CameraScreen.Alert "Scan Failed" "Failed to scan cards. Please try again.".
Proof.
  apply (processImage_transport_failure_alert Examples.network_down
           CameraScreen.initial "file:///tmp/cards.jpg").
  left. exists (JS.Error "Network request failed").
  split; [reflexivity|left; reflexivity].
Defined.

(** ** ScanResultsScreen: the selection under presses *)

Section SelectionMore.
Import JS ScanResultsScreen.
Context {A : Type} `{EqDecision A}.
Implicit Types (n m : A) (l presses : list A).

Lemma selection_after_snoc l presses n :
  selection_after l (presses ++ [n])
  = toggleCardSelection n (selection_after l presses).
Proof. unfold selection_after. rewrite fold_left_app. reflexivity. Qed.

(** A press keeps a selection without duplicates without duplicates. *)
Lemma toggle_NoDup n l : NoDup l -> NoDup (toggleCardSelection n l).
Proof.
  intros Hl. destruct (decide (n ∈ l)) as [Hin|Hout].
  - rewrite toggle_present by exact Hin. apply NoDup_filter. exact Hl.
  - rewrite toggle_absent by exact Hout. apply NoDup_app.
    split; [exact Hl|]. split; [|apply NoDup_singleton].
    intros x Hx Hx'. apply list_elem_of_singleton in Hx'. subst x.
    contradiction.
Qed.

Lemma selection_after_NoDup l presses :
  NoDup l -> NoDup (selection_after l presses).
Proof.
  intros Hl. induction presses as [|p presses IH] using rev_ind.
  - exact Hl.
  - rewrite selection_after_snoc. apply toggle_NoDup. exact IH.
Qed.

Lemma filter_absent n l : n ∉ l -> filter (fun k => k ≠ n) l = l.
Proof.
  induction l as [|x l IH]; intros Hn; [reflexivity|].
  apply not_elem_of_cons in Hn as [Hx Hl].
  rewrite filter_cons, decide_True by (intros ->; by apply Hx).
  rewrite (IH Hl). reflexivity.
Qed.

(** Deselecting from a selection without duplicates removes one entry. *)
Lemma filter_present_length n l :
  NoDup l -> n ∈ l -> S (length (filter (fun k => k ≠ n) l)) = length l.
Proof.
  induction 1 as [|x l Hx Hl IH]; intros Hn.
  - by apply elem_of_nil in Hn.
  - rewrite filter_cons. destruct (decide (x ≠ n)) as [Hne|Heq].
    + apply elem_of_cons in Hn as [->|Hn]; [contradiction|].
      cbn [length]. rewrite (IH Hn). reflexivity.
    + assert (x = n) as -> by (destruct (decide (x = n)); tauto).
      rewrite (filter_absent n l Hx). reflexivity.
Qed.

(** Membership after the presses, by the parity of the presses on [n]. *)
Lemma selection_after_parity presses n :
  n ∈ selection_after [] presses
  <-> Nat.odd (length (filter (fun p => p = n) presses)) = true.
Proof.
  induction presses as [|p presses IH] using rev_ind.
  - cbn. split; [intros Hn; by apply elem_of_nil in Hn|discriminate].
  - rewrite selection_after_snoc, filter_app, length_app.
    rewrite filter_cons, filter_nil.
    destruct (decide (p = n)) as [->|Hne].
    + rewrite toggle_flips, IH. cbn [length].
      rewrite Nat.add_1_r, Nat.odd_succ, <- Nat.negb_odd.
      destruct (Nat.odd _); cbn; split; congruence.
    + rewrite toggle_others by congruence. cbn [length].
      rewrite Nat.add_0_r. exact IH.
Qed.

(** X10: whatever cards are pressed, in whatever order, starting from the
    empty selection, the selection never holds a card number twice; so
    each further press changes the number of selected cards, the count the
    "Add to Collection" button shows, by exactly one: down when the card
    was selected, up when it was not. *)
Theorem selection_count_steps :
  forall presses n,
    NoDup (selection_after [] presses)
    /\ (n ∈ selection_after [] presses ->
        S (length (selection_after [] (presses ++ [n])))
        = length (selection_after [] presses))
    /\ (n ∉ selection_after [] presses ->
        length (selection_after [] (presses ++ [n]))
        = S (length (selection_after [] presses))).
Proof.
  intros presses n.
  pose proof (selection_after_NoDup [] presses (NoDup_nil_2 (A:=A))) as Hnd.
  split; [exact Hnd|]. rewrite selection_after_snoc. split; intros Hn.
  - rewrite toggle_present by exact Hn.
    apply filter_present_length; assumption.
  - rewrite toggle_absent by exact Hn. rewrite length_app. cbn [length].
    apply Nat.add_1_r.
Qed.

(** X11: starting from the empty selection, a card is selected exactly
    when it has been pressed an odd number of times; so [addToCollection]
    answers "No Cards Selected" exactly when every card has been pressed
    an even number of times, and "Coming Soon" otherwise. *)
Theorem selection_parity :
  forall presses,
    (forall n,
        n ∈ selection_after [] presses
        <-> Nat.odd (length (filter (fun p => p = n) presses)) = true)
    /\ (dialog_title (addToCollection (selection_after [] presses))
        = "No Cards Selected"
        <-> forall n,
              Nat.even (length (filter (fun p => p = n) presses)) = true)
    /\ (dialog_title (addToCollection (selection_after [] presses))
        = "No Cards Selected"
        \/ dialog_title (addToCollection (selection_after [] presses))
           = "Coming Soon").
Proof.
  intros presses. split; [intros n; apply selection_after_parity|].
  unfold addToCollection.
  destruct (selection_after [] presses) as [|x l] eqn:Hsel; cbn.
  - split; [|left; reflexivity]. split; [|reflexivity]. intros _ n.
    rewrite <- Nat.negb_odd.
    destruct (Nat.odd _) eqn:Hodd; [|reflexivity].
    apply selection_after_parity in Hodd. rewrite Hsel in Hodd.
    by apply elem_of_nil in Hodd.
  - split; [|right; reflexivity]. split; [discriminate|]. intros Heven.
    assert (Hx : x ∈ selection_after [] presses)
      by (rewrite Hsel; apply elem_of_cons; left; reflexivity).
    apply selection_after_parity in Hx.
    specialize (Heven x). rewrite <- Nat.negb_odd, Hx in Heven.
    discriminate.
Qed.

End SelectionMore.

(** ** ScanResultsScreen: what is rendered and what a press does *)

Section ResultsMore.
Import JS ScanResultsScreen.

(** The rarity badge holds nothing to press. *)
Lemma rarity_badge_actions rarity node :
  rarity_badge rarity = Returns node -> actions node = [].
Proof.
  unfold rarity_badge, guarded, mbind, outcome_bind.
  destruct (truthy rarity); [|intros [= <-]; reflexivity].
  destruct (toUpperCase rarity); cbn [bind]; [|discriminate].
  intros [= <-]. reflexivity.
Qed.

(** Nor does the price section. *)
Lemma price_section_actions prices node :
  price_section prices = Returns node -> actions node = [].
Proof.
  unfold price_section. unfold guarded at 1.
  destruct (truthy prices) eqn:Hp; [|intros [= <-]; reflexivity].
  destruct prices; try discriminate Hp; cbn [get];
    unfold mbind, outcome_bind, price_row; cbn [bind];
    rewrite !guarded_value; cbn [bind]; intros [= <-]; cbn [actions app];
    repeat match goal with
           | |- context [truthy ?v] => destruct (truthy v)
           end; reflexivity.
Qed.

(** X12: of a card that renders, the element has press handlers exactly
    when the card is matched: a card that is not matched renders as a
    plain view that cannot be pressed, so it can never be selected; a
    matched card has two handlers, the outer one toggling its own card
    number and the inner one opening Scryfall for that card.  Neither
    handler throws when pressed, and the inner one leaves the selection as
    it is and opens the card's [scryfall_uri] only when it is truthy. *)
Theorem renderCard_handlers :
  forall (selectedCards : list JSValue) (card key : JSValue) (node : Node),
    renderCard selectedCards card = Returns (key, node) ->
    exists m uri,
      get card "matched" = Returns m
      /\ get card "scryfall_uri" = Returns uri
      /\ actions node
         = (if truthy m then [ToggleCardSelection key; OpenScryfall card]
            else [])
      /\ (forall sel,
            press sel (ToggleCardSelection key)
            = Returns (toggleCardSelection key sel, None)
            /\ press sel (OpenScryfall card)
               = Returns (sel, if truthy uri then Some uri else None)).
Proof.
  intros selectedCards card key node.
  unfold renderCard, mbind, outcome_bind.
  destruct (get card "card_number") as [cn|e] eqn:Hcn; cbn [bind];
    [|discriminate].
  destruct (get card "matched") as [m|e] eqn:Hm; cbn [bind]; [|discriminate].
  assert (Huri : exists uri, get card "scryfall_uri" = Returns uri).
  { destruct card; try discriminate Hcn; eexists; reflexivity. }
  destruct Huri as [uri Huri]. intros Hnode. exists m, uri.
  split; [reflexivity|]. split; [exact Huri|].
  assert (Hpress : forall k sel,
             press sel (ToggleCardSelection k)
             = Returns (toggleCardSelection k sel, None)
             /\ press sel (OpenScryfall card)
                = Returns (sel, if truthy uri then Some uri else None)).
  { intros k sel. split; [reflexivity|]. unfold press, mbind, outcome_bind.
    rewrite Huri. reflexivity. }
  destruct (truthy m) eqn:Ht; cbn [negb] in Hnode.
  - destruct (matched_card_object card m Hm Ht) as [props ->].
    cbn [get bind] in Hnode. rewrite !guarded_value in Hnode.
    cbn [bind] in Hnode.
    destruct (toUpperCase (lookup_prop "set_code" props)) as [up|e];
      cbn [bind] in Hnode; [|discriminate].
    destruct (rarity_badge (lookup_prop "rarity" props)) as [badge|e] eqn:Hb;
      cbn [bind] in Hnode; [|discriminate].
    destruct (price_section (lookup_prop "prices" props)) as [rows|e] eqn:Hp;
      cbn [bind] in Hnode; [|discriminate].
    injection Hnode as <- <-. split; [|apply Hpress].
    cbn [actions app].
    rewrite (rarity_badge_actions _ _ Hb), (price_section_actions _ _ Hp).
    destruct (truthy (lookup_prop "image_url" props));
      destruct (truthy (lookup_prop "collector_number" props));
      destruct (array_includes selectedCards cn); reflexivity.
  - injection Hnode as <- <-. split; [reflexivity|apply Hpress].
Qed.

(** Whether a card renders does not depend on the selection. *)
Lemma renderCard_reselect selectedCards selectedCards' card key node :
  renderCard selectedCards card = Returns (key, node) ->
  exists node', renderCard selectedCards' card = Returns (key, node').
Proof.
  unfold renderCard, mbind, outcome_bind.
  destruct (get card "card_number") as [cn|e]; cbn [bind]; [|discriminate].
  destruct (get card "matched") as [m|e]; cbn [bind]; [|discriminate].
  destruct (negb (truthy m)); [intros [= <- _]; eexists; reflexivity|].
  repeat match goal with
         | |- bind ?x _ = _ -> _ =>
             destruct x; cbn [bind]; [|discriminate]
         end.
  intros [= <- _]. eexists; reflexivity.
Qed.

(** The element is highlighted exactly for a matched card whose number is
    selected. *)
Lemma renderCard_highlighted selectedCards card key node m :
  renderCard selectedCards card = Returns (key, node) ->
  get card "matched" = Returns m ->
  highlighted node = truthy m && bool_decide (key ∈ selectedCards).
Proof.
  unfold renderCard, mbind, outcome_bind. intros Hnode Hm. revert Hnode.
  destruct (get card "card_number") as [cn|e]; cbn [bind]; [|discriminate].
  rewrite Hm. cbn [bind].
  destruct (truthy m); cbn [negb]; [|intros [= <- <-]; reflexivity].
  repeat match goal with
         | |- bind ?x _ = _ -> _ =>
             destruct x; cbn [bind]; [|discriminate]
         end.
  intros [= <- <-]. unfold array_includes.
  destruct (bool_decide (cn ∈ selectedCards)); reflexivity.
Qed.

(** A matched card that renders has a string for its set code. *)
Lemma renderCard_returns_set_code selectedCards card out m :
  renderCard selectedCards card = Returns out ->
  get card "matched" = Returns m -> truthy m = true ->
  exists s, get card "set_code" = Returns (JStr s).
Proof.
  intros Hout Hm Ht. destruct (matched_card_object card m Hm Ht) as [props ->].
  cbn [get] in Hm. injection Hm as Hm. revert Hout.
  unfold renderCard. cbn [get]. unfold mbind, outcome_bind. cbn [bind].
  rewrite Hm, Ht. cbn [negb]. rewrite !guarded_value. cbn [bind].
  destruct (lookup_prop "set_code" props); cbn [toUpperCase bind];
    try discriminate.
  intros _. eexists; reflexivity.
Qed.

(** One card that fails makes the whole list fail. *)
Lemma render_all_raises selectedCards (cards : list JSValue) card :
  card ∈ cards -> raises (renderCard selectedCards card) ->
  raises (render_all selectedCards cards).
Proof.
  intros Hin [e He]. induction cards as [|c cards IH].
  - by apply elem_of_nil in Hin.
  - cbn [render_all]. unfold mbind, outcome_bind.
    apply elem_of_cons in Hin as [<-|Hin].
    + rewrite He. eexists; reflexivity.
    + destruct (renderCard selectedCards c); cbn [bind];
        [|eexists; reflexivity].
      destruct (IH Hin) as [e' ->]. eexists; reflexivity.
Qed.

(** X13: pressing a matched card that is rendered and rendering again
    flips its highlight, and leaves every card with another card number
    rendered and highlighted, or not, as it was. *)
Theorem press_flips_highlight :
  forall (selectedCards : list JSValue) (card key : JSValue) (node : Node)
         (m : JSValue),
    renderCard selectedCards card = Returns (key, node) ->
    get card "matched" = Returns m -> truthy m = true ->
    exists node',
      renderCard (toggleCardSelection key selectedCards) card
      = Returns (key, node')
      /\ highlighted node' = negb (highlighted node)
      /\ forall other key2 node2,
           renderCard selectedCards other = Returns (key2, node2) ->
           key2 <> key ->
           exists node2',
             renderCard (toggleCardSelection key selectedCards) other
             = Returns (key2, node2')
             /\ highlighted node2' = highlighted node2.
Proof.
  intros selectedCards card key node m Hnode Hm Ht.
  destruct (renderCard_reselect selectedCards
              (toggleCardSelection key selectedCards) card key node Hnode)
    as [node' Hnode'].
  exists node'. split; [exact Hnode'|]. split.
  - rewrite (renderCard_highlighted _ _ _ _ _ Hnode' Hm).
    rewrite (renderCard_highlighted _ _ _ _ _ Hnode Hm). rewrite Ht.
    cbn [andb]. destruct (decide (key ∈ selectedCards)) as [Hin|Hout].
    + rewrite (bool_decide_eq_true_2 _ Hin).
      apply bool_decide_eq_false_2. rewrite toggle_flips. tauto.
    + rewrite (bool_decide_eq_false_2 _ Hout).
      apply bool_decide_eq_true_2. rewrite toggle_flips. exact Hout.
  - intros other key2 node2 Hother Hne.
    destruct (renderCard_reselect selectedCards
                (toggleCardSelection key selectedCards) other key2 node2
                Hother) as [node2' Hother'].
    exists node2'. split; [exact Hother'|].
    assert (Hm2 : exists m2, get other "matched" = Returns m2).
    { revert Hother. unfold renderCard, mbind, outcome_bind.
      destruct (get other "card_number"); cbn [bind]; [|discriminate].
      destruct (get other "matched"); [eexists; reflexivity|discriminate]. }
    destruct Hm2 as [m2 Hm2].
    rewrite (renderCard_highlighted _ _ _ _ _ Hother' Hm2).
    rewrite (renderCard_highlighted _ _ _ _ _ Hother Hm2).
    f_equal. apply bool_decide_ext. apply toggle_others. exact Hne.
Qed.

(** X14: the list of cards renders all or nothing: it is rendered exactly
    when every card renders, one element per card in order, and it fails
    exactly when some card fails, with the error of the first card that
    fails. *)
Theorem render_all_all_or_nothing :
  forall (selectedCards : list JSValue) (cards : list JSValue),
    (forall rendered,
        render_all selectedCards cards = Returns rendered
        <-> Forall2 (fun card out => renderCard selectedCards card = Returns out)
              cards rendered)
    /\ (forall e,
          render_all selectedCards cards = Throws e
          <-> exists before card after,
                cards = before ++ card :: after
                /\ Forall (fun c => exists out,
                             renderCard selectedCards c = Returns out) before
                /\ renderCard selectedCards card = Throws e).
Proof.
  intros selectedCards cards. induction cards as [|c cards [IHr IHt]].
  - split.
    + intros rendered. cbn [render_all]. split.
      * intros [= <-]. constructor.
      * intros HF. inversion HF. reflexivity.
    + intros e. cbn [render_all]. split; [discriminate|].
      intros (before & card & after & Hcards & _).
      destruct before; discriminate Hcards.
  - cbn [render_all]. unfold mbind, outcome_bind.
    destruct (renderCard selectedCards c) as [out|e0] eqn:Hc; cbn [bind].
    + destruct (render_all selectedCards cards) as [rest|e1] eqn:Hrest;
        cbn [bind]; split.
      * intros rendered. split.
        -- intros [= <-]. constructor; [exact Hc|]. apply IHr. reflexivity.
        -- intros HF. inversion HF as [|? out' ? rest' Hout Hrest']; subst.
           apply IHr in Hrest'. congruence.
      * intros e. split; [discriminate|].
        intros (before & card & after & Hcards & Hbefore & Hcard).
        destruct before as [|b before]; cbn in Hcards;
          injection Hcards as -> ->; [congruence|].
        apply Forall_cons in Hbefore as [_ Hbefore].
        assert (Hthrows : Returns rest = Throws e).
        { apply IHt. exists before, card, after. auto. }
        discriminate.
      * intros rendered. split; [discriminate|].
        intros HF. inversion HF as [|? out' ? rest' Hout Hrest']; subst.
        apply IHr in Hrest'. discriminate.
      * intros e. split.
        -- intros [= <-]. destruct (proj1 (IHt e1) eq_refl)
             as (before & card & after & -> & Hbefore & Hcard).
           exists (c :: before), card, after. split; [reflexivity|].
           split; [|exact Hcard]. constructor; [eauto|exact Hbefore].
        -- intros (before & card & after & Hcards & Hbefore & Hcard).
           destruct before as [|b before]; cbn in Hcards;
             injection Hcards as -> ->; [congruence|].
           apply Forall_cons in Hbefore as [_ Hbefore].
           apply IHt. exists before, card, after. auto.
    + split.
      * intros rendered. split; [discriminate|].
        intros HF. inversion HF; subst. congruence.
      * intros e. split.
        -- intros [= <-]. exists [], c, cards. auto.
        -- intros (before & card & after & Hcards & Hbefore & Hcard).
           destruct before as [|b before]; cbn in Hcards;
             injection Hcards as -> ->; [congruence|].
           apply Forall_cons in Hbefore as [[out Hout] _]. congruence.
Qed.

(** X15: the results screen cannot render its list of cards when
    [results.cards] is not an array, or when a single card of it is
    matched and has no string for its set code, however many other cards
    render. *)
Theorem render_cards_one_bad_card :
  forall (selectedCards : list JSValue) (results cards : JSValue),
    get results "cards" = Returns cards ->
    (forall items, cards <> JArr items)
    \/ (exists items card m,
          cards = JArr items /\ card ∈ items
          /\ get card "matched" = Returns m /\ truthy m = true
          /\ forall s, get card "set_code" <> Returns (JStr s)) ->
    raises (render_cards selectedCards results).
Proof.
  intros selectedCards results cards Hcards Hbad.
  unfold render_cards, mbind, outcome_bind. rewrite Hcards. cbn [bind].
  destruct Hbad as [Hnot|(items & card & m & -> & Hin & Hm & Ht & Hset)].
  - destruct cards; try (eexists; reflexivity).
    exfalso. eapply Hnot. reflexivity.
  - apply (render_all_raises selectedCards items card Hin).
    destruct (renderCard selectedCards card) as [out|e] eqn:Hout;
      [|eexists; reflexivity].
    destruct (renderCard_returns_set_code _ _ _ _ Hout Hm Ht) as [s Hs].
    exfalso. exact (Hset s Hs).
Qed.

End ResultsMore.

(** A bolt renders with its two handlers. *)
Lemma renderCard_handlers_witness :
  exists node,
    ScanResultsScreen.renderCard [] Examples.bolt
    = JS.Returns (JS.JNum 1, node)
    /\ ScanResultsScreen.actions node
       = [ScanResultsScreen.ToggleCardSelection (JS.JNum 1);
          ScanResultsScreen.OpenScryfall Examples.bolt].
Proof.
  eexists. split; [reflexivity|].
  destruct (renderCard_handlers [] Examples.bolt (JS.JNum 1) _ eq_refl)
    as (m & uri & Hm & _ & Hactions & _).
  injection Hm as <-. exact Hactions.
Defined.

(** A bolt, pressed, is highlighted. *)
Lemma press_flips_highlight_witness :
  exists node',
    ScanResultsScreen.renderCard
      (ScanResultsScreen.toggleCardSelection (JS.JNum 1) []) Examples.bolt
    = JS.Returns (JS.JNum 1, node')
    /\ ScanResultsScreen.highlighted node' = true.
Proof.
  destruct (press_flips_highlight [] Examples.bolt (JS.JNum 1) _
              (JS.JBool true) eq_refl eq_refl eq_refl)
    as (node' & Hnode' & Hflip & _).
  exists node'. split; [exact Hnode'|exact Hflip].
Defined.

(** A scan of two cards, the second without its set code. *)
Lemma render_cards_one_bad_card_witness :
  JS.raises
    (ScanResultsScreen.render_cards []
       (JS.JObj [("success", JS.JBool true);
                 ("cards", JS.JArr [Examples.bolt;
                                    Examples.bolt_without_set_code])])).
Proof.
  apply (render_cards_one_bad_card []
           (JS.JObj [("success", JS.JBool true);
                     ("cards", JS.JArr [Examples.bolt;
                                        Examples.bolt_without_set_code])])
           (JS.JArr [Examples.bolt; Examples.bolt_without_set_code])
           eq_refl).
  right. exists [Examples.bolt; Examples.bolt_without_set_code],
    Examples.bolt_without_set_code, (JS.JBool true).
  split; [reflexivity|]. split; [apply elem_of_cons; right;
                                 apply elem_of_cons; left; reflexivity|].
  split; [reflexivity|]. split; [reflexivity|].
  intros s Hs. discriminate Hs.
Defined.

(** ** From the camera to the results screen *)

Section CameraToResults.
Import JS Api CameraScreen ScanResultsScreen.

(** X16: [scanCards] accepts a body on its [success] alone, and the
    results screen needs more: when the backend answers ok with a body
    whose [success] is truthy and whose [cards] is not an array,
    [processImage] shows no alert and navigates to the results screen with
    that body, and the screen then fails to render its list of cards. *)
Theorem accepted_scan_may_not_render :
  forall (fetch : Fetch) (s : State) (imageUri : string) (r : Response)
         (data sv cards : JSValue) (selectedCards : list JSValue),
    fetch (scan_request imageUri (Some (scanMode s))) = Returns r ->
    ok r = true ->
    json r = Returns data ->
    get data "success" = Returns sv -> truthy sv = true ->
    get data "cards" = Returns cards ->
    (forall items, cards <> JArr items) ->
    fst (processImage fetch s imageUri) = Navigate "ScanResults" data
    /\ raises (render_cards selectedCards data).
Proof.
  intros fetch s imageUri r data sv cards selectedCards
    Hr Hok Hjson Hsv Ht Hcards Hnot.
  split.
  - unfold processImage, processImage_settle.
    rewrite (scanCards_accepts fetch imageUri _ r data sv Hr Hok Hjson Hsv Ht).
    reflexivity.
  - unfold render_cards, mbind, outcome_bind. rewrite Hcards. cbn [bind].
    destruct cards; try (eexists; reflexivity).
    exfalso. eapply Hnot. reflexivity.
Qed.

End CameraToResults.

(** The backend answers with a success and nothing else. *)
Lemma accepted_scan_may_not_render_witness :
  fst (CameraScreen.processImage
         (Examples.answers (JS.JObj [("success", JS.JBool true)]))
         CameraScreen.initial "file:///tmp/cards.jpg")
  = CameraScreen.Navigate "ScanResults" (JS.JObj [("success", JS.JBool true)])
  /\ JS.raises
       (ScanResultsScreen.render_cards []
          (JS.JObj [("success", JS.JBool true)])).
Proof.
  refine (accepted_scan_may_not_render
            (Examples.answers (JS.JObj [("success", JS.JBool true)]))
            CameraScreen.initial "file:///tmp/cards.jpg"
            {| Api.ok := true; Api.status := 200;
               Api.text := JS.Returns "(body)";
               Api.json := JS.Returns (JS.JObj [("success", JS.JBool true)]) |}
            (JS.JObj [("success", JS.JBool true)]) (JS.JBool true)
            JS.JUndefined [] eq_refl eq_refl eq_refl eq_refl eq_refl eq_refl _).
  intros items Hitems. discriminate Hitems.
Defined.

(** ** CameraScreen: sequences of presses *)

Section CameraPresses.
Import JS Api CameraScreen.

Lemma taps_snoc (fetch : Fetch) s ts t :
  taps fetch s (ts ++ [t])
  = (fst (taps fetch s ts) ++ fst (tap fetch (snd (taps fetch s ts)) t),
     snd (tap fetch (snd (taps fetch s ts)) t)).
Proof. unfold taps. rewrite fold_left_app. reflexivity. Qed.

(** The state [takePicture] leaves. *)
Lemma takePicture_state (fetch : Fetch) camera s :
  snd (takePicture fetch camera s)
  = match camera with
    | None => s
    | Some _ => {| scanMode := scanMode s; isProcessing := false |}
    end.
Proof. destruct camera as [[uri|error]|]; reflexivity. Qed.

(** The state [pickImage] leaves. *)
Lemma pickImage_state (fetch : Fetch) picker s :
  snd (pickImage fetch picker s)
  = match picker with
    | Throws _ => s
    | Returns result =>
        if canceled result then s
        else {| scanMode := scanMode s;
                isProcessing := match assets result with
                                | [] => true
                                | _ :: _ => false
                                end |}
    end.
Proof.
  destruct picker as [result|error]; [|reflexivity]. unfold pickImage.
  destruct (canceled result); [reflexivity|].
  destruct (assets result); reflexivity.
Qed.

(** While the screen is processing, presses do nothing. *)
Lemma taps_while_processing (fetch : Fetch) s ts :
  isProcessing s = true -> taps fetch s ts = ([], s).
Proof.
  intros Hs. induction ts as [|t ts IH] using rev_ind; [reflexivity|].
  rewrite taps_snoc, IH. cbn [fst snd]. unfold tap. rewrite Hs. reflexivity.
Qed.

(** X17: as long as every pick that is not canceled comes with an asset,
    no sequence of presses on the four buttons of the camera view, from
    the initial state, leaves the screen processing: after every press
    that has settled the buttons are enabled again, and the mode is one of
    [default] and [pro]. *)
Theorem camera_screen_settles :
  forall (fetch : Fetch) (ts : list Tap),
    Forall (fun t => forall result,
                tap_button t = GalleryButton ->
                tap_picker t = Returns result ->
                canceled result = false -> assets result <> []) ts ->
    isProcessing (snd (taps fetch initial ts)) = false
    /\ (scanMode (snd (taps fetch initial ts)) = "default"
        \/ scanMode (snd (taps fetch initial ts)) = "pro").
Proof.
  intros fetch ts. induction ts as [|t ts IH] using rev_ind; intros Hts.
  - split; [reflexivity|left; reflexivity].
  - apply Forall_app in Hts as [Hts Ht]. apply Forall_inv in Ht.
    destruct (IH Hts) as [Hidle Hmode]. rewrite taps_snoc. cbn [snd].
    set (s := snd (taps fetch initial ts)) in *.
    unfold tap. rewrite Hidle.
    destruct (tap_button t) eqn:Hb; cbn [snd step].
    + rewrite Hidle. cbn. auto.
    + rewrite Hidle. cbn. auto.
    + rewrite pickImage_state.
      destruct (tap_picker t) as [result|error] eqn:Hp; [|auto].
      destruct (canceled result) eqn:Hc; [auto|].
      cbn [isProcessing scanMode]. split; [|exact Hmode].
      destruct (assets result) eqn:Ha; [|reflexivity].
      exfalso. exact (Ht result eq_refl eq_refl Hc Ha).
    + rewrite takePicture_state.
      destruct (tap_camera t); cbn [isProcessing scanMode]; auto.
Qed.

(** X18: a pick that is not canceled and has no asset leaves the screen
    processing for good: the alert is shown, [isProcessing] stays set,
    and since every button is disabled while it is set, no later press on
    the four buttons has any effect or changes the state. *)
Theorem camera_screen_stuck_after_empty_pick :
  forall (fetch : Fetch) (s : State) (t : Tap) (result : PickerResult)
         (ts : list Tap),
    isProcessing s = false ->
    tap_button t = GalleryButton ->
    tap_picker t = Returns result ->
    canceled result = false ->
    assets result = [] ->
    fst (tap fetch s t)
    = [Alert "Error" "Failed to pick image. Please try again."]
    /\ isProcessing (snd (tap fetch s t)) = true
    /\ taps fetch (snd (tap fetch s t)) ts = ([], snd (tap fetch s t)).
Proof.
  intros fetch s t result ts Hs Hb Hp Hc Ha.
  assert (Hstuck : isProcessing (snd (tap fetch s t)) = true).
  { unfold tap. rewrite Hs, Hb, pickImage_state, Hp, Hc, Ha. reflexivity. }
  split; [|split; [exact Hstuck|apply taps_while_processing; exact Hstuck]].
  unfold tap, pickImage. rewrite Hs, Hb, Hp, Hc, Ha. reflexivity.
Qed.

End CameraPresses.

(** Pro mode is chosen, then a picture is taken and scanned. *)
Lemma camera_screen_settles_witness :
  CameraScreen.isProcessing
    (snd (CameraScreen.taps (Examples.answers Examples.empty_scan)
            CameraScreen.initial
            [{| CameraScreen.tap_button := CameraScreen.ProScanButton;
                CameraScreen.tap_camera := None;
                CameraScreen.tap_picker :=
                  JS.Throws (JS.Error "not asked") |};
             {| CameraScreen.tap_button := CameraScreen.CaptureButton;
                CameraScreen.tap_camera :=
                  Some (JS.Returns "file:///tmp/cards.jpg");
                CameraScreen.tap_picker :=
                  JS.Throws (JS.Error "not asked") |}]))
  = false.
Proof.
  refine (proj1 (camera_screen_settles (Examples.answers Examples.empty_scan)
                   _ _)).
  repeat constructor; intros result Hb; discriminate Hb.
Defined.

(** The picker resolves without a single asset. *)
Lemma camera_screen_stuck_after_empty_pick_witness :
  CameraScreen.taps Examples.network_down
    {| CameraScreen.scanMode := "default";
       CameraScreen.isProcessing := true |}
    [{| CameraScreen.tap_button := CameraScreen.CaptureButton;
        CameraScreen.tap_camera := Some (JS.Returns "file:///tmp/cards.jpg");
        CameraScreen.tap_picker := JS.Throws (JS.Error "not asked") |}]
  = ([], {| CameraScreen.scanMode := "default";
            CameraScreen.isProcessing := true |}).
Proof.
  refine (proj2 (proj2 (camera_screen_stuck_after_empty_pick
            Examples.network_down CameraScreen.initial
            {| CameraScreen.tap_button := CameraScreen.GalleryButton;
               CameraScreen.tap_camera := None;
               CameraScreen.tap_picker :=
                 JS.Returns {| CameraScreen.canceled := false;
                               CameraScreen.assets := [] |} |}
            {| CameraScreen.canceled := false; CameraScreen.assets := [] |}
            _ eq_refl eq_refl eq_refl eq_refl eq_refl))).
Defined.
